(** * Notes and the media syncer of Anki, specified over a shallow embedding

    Two modules of the repository are embedded:

    - [pylib/anki/notes.py]: class [Note], its dict interface, [flush] and
      the duplicate check [dupeOrEmpty];
    - [qt/aqt/mediasync.py]: class [MediaSyncer], the single-flight
      controller of the background media sync.

    Python objects become records, methods become functions from the object
    (and the part of the world the method touches) to a result; an exception
    is a value of the result type.  Calls that leave the two modules
    (storage backend, hooks, GUI) are recorded in an explicit list of
    effects, or taken as parameters of a section. *)

From Stdlib Require Import ZArith NArith Ascii String DecimalString List Lia.
From stdpp Require Import base option list gmap.

Open Scope Z_scope.

(** ** The fragment of Python the two modules rely on *)

Module Py.

(** A [str] is a sequence of code points. *)
Abbreviation str := (list N).

(** Literal of code points below 256, for examples. *)
Fixpoint lit (s : string) : str :=
  match s with
  | EmptyString => []
  | String c s' => N_of_ascii c :: lit s'
  end.

(** The exceptions raised by the embedded code. *)
Inductive exn :=
| KeyError (key : str)
| IndexError
| AssertionError
| ValueError.

Inductive result (A : Type) :=
| Ok (a : A)
| Raise (e : exn).
Arguments Ok {A} a.
Arguments Raise {A} e.

(** Sequencing: an exception ends the computation. *)
#[global] Instance result_bind : MBind result := fun A B k r =>
  match r with
  | Ok a => k a
  | Raise e => Raise e
  end.

#[global] Instance result_ret : MRet result := fun A a => Ok a.

(** [str.isspace] on one code point: the white space table of CPython. *)
Definition isspace (c : N) : bool :=
  ((9 <=? c) && (c <=? 13) || (28 <=? c) && (c <=? 32)
   || (c =? 133) || (c =? 160) || (c =? 5760)
   || (8192 <=? c) && (c <=? 8202)
   || (c =? 8232) || (c =? 8233) || (c =? 8239) || (c =? 8287)
   || (c =? 12288))%N.

Fixpoint lstrip (s : str) : str :=
  match s with
  | [] => []
  | c :: s' => if isspace c then lstrip s' else s
  end.

Definition rstrip (s : str) : str := rev (lstrip (rev s)).

(** [s.strip()] *)
Definition strip (s : str) : str := rstrip (lstrip s).

(** Position denoted by the subscript [i] in a sequence of length [len]:
    a negative subscript counts from the end. *)
Definition index (len : nat) (i : Z) : option nat :=
  let j := if i <? 0 then i + Z.of_nat len else i in
  if (0 <=? j) && (j <? Z.of_nat len) then Some (Z.to_nat j) else None.

(** [l[i]] *)
Definition getitem {A} (l : list A) (i : Z) : result A :=
  match index (length l) i with
  | Some j => match l !! j with Some x => Ok x | None => Raise IndexError end
  | None => Raise IndexError
  end.

(** [l[i] = x] *)
Definition setitem {A} (l : list A) (i : Z) (x : A) : result (list A) :=
  match index (length l) i with
  | Some j => Ok (<[j:=x]> l)
  | None => Raise IndexError
  end.

End Py.

(** ** [pylib/anki/notes.py] *)

Module Notes.
Import Py.

(** Row of the [notes] table, restricted to the columns the module reads. *)
Record NoteRow := {
  row_id : Z;
  row_mid : Z;
  row_csum : Z;
  row_flds : str
}.

(** [anki.rsbackend.BackendNote] *)
Record BackendNote := {
  bn_id : Z;
  bn_guid : str;
  bn_ntid : Z;
  bn_mtime_secs : Z;
  bn_usn : Z;
  bn_tags : list str;
  bn_fields : list str
}.

(** Calls into [col.backend] that write. *)
Inductive BackendCall :=
| update_note (n : BackendNote).

Section Note.

(** A field of a note type, as [col.models] stores it. *)
Context {NoteTypeField : Type}.

Record Note := {
  id : Z;
  guid : str;
  mid : Z;
  mod_ : Z;
  usn : Z;
  tags : list str;
  fields : list str;
  _fmap : gmap (list N) (Z * NoteTypeField)
}.

(** Helpers of [anki.utils] and the filter [hooks.note_will_flush];
    their code is outside the two modules. *)
Variable fieldChecksum : str -> Z.
Variable stripHTMLMedia : str -> str.
Variable splitFields : str -> list str.
Variable note_will_flush : Note -> Note.

(** The message type [BackendNote] is declared outside the two modules.
    Its integer fields have a fixed width and its text fields hold
    encodable text only: [BackendNote(...)] raises [ValueError] when an
    argument does not fit its field.  Which arguments fit is a parameter;
    a [BackendNote] record holds the arguments of the call, and is a
    message when they fit. *)
Variable BackendNote_fits : BackendNote -> bool.

Definition _load_from_backend_note
    (n : BackendNote) (fieldMap : gmap (list N) (Z * NoteTypeField)) : Note :=
  {| id := bn_id n;
     guid := bn_guid n;
     mid := bn_ntid n;
     mod_ := bn_mtime_secs n;
     usn := bn_usn n;
     tags := bn_tags n;
     fields := bn_fields n;
     _fmap := fieldMap |}.

(** The arguments [to_backend_note] passes to [BackendNote(...)]. *)
Definition message_of (self : Note) : BackendNote :=
  {| bn_id := id self;
     bn_guid := guid self;
     bn_ntid := mid self;
     bn_mtime_secs := mod_ self;
     bn_usn := usn self;
     bn_tags := tags self;
     bn_fields := fields self |}.

(** Returns the note as the hook left it, with the message or the
    [ValueError] of its construction. *)
Definition to_backend_note (self : Note) : Note * result BackendNote :=
  let self := note_will_flush self in
  let n := message_of self in
  (self, if BackendNote_fits n then Ok n else Raise ValueError).

(** Returns the note and the calls made to the backend as they are when
    [flush] returns or raises. *)
Definition flush (self : Note) (backend : list BackendCall)
  : Note * list BackendCall * result unit :=
  if bool_decide (id self ≠ 0) then
    match to_backend_note self with
    | (self, Ok n) => (self, backend ++ [update_note n], Ok tt)
    | (self, Raise e) => (self, backend, Raise e)
    end
  else (self, backend, Raise AssertionError).

(** *** Dict interface *)

Definition _fieldOrd (self : Note) (key : str) : result Z :=
  match _fmap self !! key with
  | Some p => Ok (fst p)
  | None => Raise (KeyError key)
  end.

Definition __getitem__ (self : Note) (key : str) : result str :=
  ord ← _fieldOrd self key;
  getitem (fields self) ord.

Definition with_fields (self : Note) (fs : list str) : Note :=
  {| id := id self; guid := guid self; mid := mid self; mod_ := mod_ self;
     usn := usn self; tags := tags self; fields := fs;
     _fmap := _fmap self |}.

Definition __setitem__ (self : Note) (key : str) (value : str)
  : result Note :=
  ord ← _fieldOrd self key;
  fs ← setitem (fields self) ord value;
  Ok (with_fields self fs).

Definition __contains__ (self : Note) (key : str) : bool :=
  bool_decide (is_Some (_fmap self !! key)).

(** *** Unique/duplicate check *)

(** Value returned by [dupeOrEmpty]: [1], [2] or [False]. *)
Inductive DupeResult :=
| RInt (n : Z)
| RFalse.

(** [select flds from notes where csum = ? and id != ? and mid = ?] *)
Definition select_flds (db : list NoteRow) (csum id' mid' : Z)
  : list str :=
  map row_flds
    (filter (fun r => row_csum r = csum ∧ row_id r ≠ id' ∧ row_mid r = mid')
            db).

(** The [for] loop over the selected rows. *)
Fixpoint dupe_loop (self : Note) (rows : list str) : result DupeResult :=
  match rows with
  | [] => Ok RFalse
  | flds :: rows' =>
      theirs ← getitem (splitFields flds) 0;
      mine ← getitem (fields self) 0;
      if bool_decide (stripHTMLMedia theirs = stripHTMLMedia mine)
      then Ok (RInt 2)
      else dupe_loop self rows'
  end.

Definition dupeOrEmpty (self : Note) (db : list NoteRow)
  : result DupeResult :=
  val ← getitem (fields self) 0;
  match strip val with
  | [] => Ok (RInt 1)
  | _ :: _ =>
      let csum := fieldChecksum val in
      dupe_loop self
        (select_flds db csum (if bool_decide (id self = 0) then 0 else id self)
                     (mid self))
  end.

(** The three answers, as the docstring names them. *)
Definition Empty : DupeResult := RInt 1.
Definition Duplicate : DupeResult := RInt 2.
Definition Unique : DupeResult := RFalse.

(** *** Vocabulary of the specification *)

(** [r] is selected by the query of [dupeOrEmpty] for a note whose
    first field is [val]. *)
Definition candidate (self : Note) (val : str) (r : NoteRow) : Prop :=
  row_csum r = fieldChecksum val ∧ row_id r ≠ id self ∧ row_mid r = mid self.

(** The stored first field of [r] and [val] are equal once stripped. *)
Definition same_first_field (val : str) (r : NoteRow) : Prop :=
  ∃ theirs rest,
    splitFields (row_flds r) = theirs :: rest
    ∧ stripHTMLMedia theirs = stripHTMLMedia val.

(** The invariant of the data model: as many fields as the field map
    has names, the ordinals being positions in [fields]. *)
Definition well_formed (self : Note) : Prop :=
  length (fields self) = size (_fmap self)
  ∧ ∀ key ord f,
      _fmap self !! key = Some (ord, f) →
      0 ≤ ord < Z.of_nat (size (_fmap self)).

End Note.

(** *** Sample helpers and notes, for the examples

    A separator-based [splitFields], a tag remover and a checksum of the
    stripped text; they stand in for the helpers of [anki.utils] on
    concrete inputs only. *)

Fixpoint sample_splitFields_from (cur : str) (s : str) : list str :=
  match s with
  | [] => [rev cur]
  | c :: s' =>
      if (c =? 31)%N then rev cur :: sample_splitFields_from [] s'
      else sample_splitFields_from (c :: cur) s'
  end.

Definition sample_splitFields (s : str) : list str :=
  sample_splitFields_from [] s.

Fixpoint sample_strip_from (in_tag : bool) (s : str) : str :=
  match s with
  | [] => []
  | c :: s' =>
      if (c =? 60)%N then sample_strip_from true s'
      else if (c =? 62)%N then sample_strip_from false s'
      else if in_tag then sample_strip_from in_tag s'
      else c :: sample_strip_from in_tag s'
  end.

Definition sample_stripHTMLMedia (s : str) : str :=
  sample_strip_from false s.

Definition sample_fieldChecksum (s : str) : Z :=
  Z.of_N (foldr N.add 0%N (sample_stripHTMLMedia s)).

Definition sample_fmap : gmap (list N) (Z * unit) :=
  {[ lit "Front" := (0, tt); lit "Back" := (1, tt) ]}.

Definition sample_note (id' : Z) (front back : string) : @Note unit :=
  {| id := id'; guid := lit "guid"; mid := 1; mod_ := 0; usn := 0;
     tags := []; fields := [lit front; lit back]; _fmap := sample_fmap |}.

(** Fields of 64, 64, 32 (unsigned) and 32 bits, and text without
    surrogates. *)
Definition sample_text_fits (s : str) : bool :=
  forallb (fun c => (c <? 55296) || (57343 <? c) && (c <? 1114112))%N s.

Definition sample_BackendNote_fits (n : BackendNote) : bool :=
  (- 2 ^ 63 <=? bn_id n) && (bn_id n <? 2 ^ 63)
  && (- 2 ^ 63 <=? bn_ntid n) && (bn_ntid n <? 2 ^ 63)
  && (0 <=? bn_mtime_secs n) && (bn_mtime_secs n <? 2 ^ 32)
  && (- 2 ^ 31 <=? bn_usn n) && (bn_usn n <? 2 ^ 31)
  && sample_text_fits (bn_guid n)
  && forallb sample_text_fits (bn_tags n)
  && forallb sample_text_fits (bn_fields n).

(** A stored note whose modification time does not fit 32 bits. *)
Definition sample_late_note : @Note unit :=
  {| id := 7; guid := lit "guid"; mid := 1; mod_ := 2 ^ 32; usn := 0;
     tags := []; fields := [lit "a"; lit "b"]; _fmap := sample_fmap |}.

Definition sample_row (id' : Z) (front back : string) : NoteRow :=
  {| row_id := id'; row_mid := 1;
     row_csum := sample_fieldChecksum (lit front);
     row_flds := lit front ++ [31%N] ++ lit back |}.

End Notes.

(** ** [qt/aqt/mediasync.py] *)

Module MediaSync.

Open Scope string_scope.

(** *** What the module imports from [anki.rsbackend] *)

Record MediaSyncProgress := {
  checked : Z;
  downloaded_files : Z;
  downloaded_deletions : Z;
  uploaded_files : Z;
  uploaded_deletions : Z
}.

(** The enumerations list the members the module names; [OTHER] stands
    for every remaining member. *)
Module ProgressKind.
Inductive t := MediaSyncProgress | OTHER.
End ProgressKind.

Module SyncErrorKind.
Inductive t :=
| AUTH_FAILED | SERVER_ERROR | MEDIA_CHECK_REQUIRED | RESYNC_REQUIRED
| OTHER.
End SyncErrorKind.

Module NetworkErrorKind.
Inductive t := OFFLINE | TIMEOUT | OTHER.
End NetworkErrorKind.

(** [LogEntry = Union[MediaSyncProgress, str]] *)
Inductive LogEntry :=
| entry_progress (p : MediaSyncProgress)
| entry_str (s : string).

Record Progress := {
  kind : ProgressKind.t;
  val : LogEntry
}.

(** The exception a finished sync can carry; [text] is [str(exc)].
    [Unclassified] is any exception of another class. *)
Inductive BaseException :=
| Interrupted
| SyncError (text : string) (kind : SyncErrorKind.t)
| NetworkError (text : string) (kind : NetworkErrorKind.t)
| DBError (text : string)
| Unclassified (text : string).

Record LogEntryWithTime := {
  time : Z;
  entry : LogEntry
}.

(** *** The main window, as far as the syncer uses it *)

(** [mw.pm] *)
Record ProfileManager := {
  sync_key : option string;
  media_syncing_enabled : bool;
  sync_shard : option Z
}.

(** What the syncer asks of the task manager, the GUI hooks and the
    dialogs, in the order it asks. *)
Inductive Effect :=
| media_sync_did_progress (e : LogEntryWithTime)
| media_sync_did_start_or_stop (running : bool)
| showWarning (text : string)
| run_in_background (hkey : string).

Record AnkiQt := {
  pm : ProfileManager;
  effects : list Effect
}.

Record MediaSyncer := {
  mw : AnkiQt;
  _syncing : bool;
  _log : list LogEntryWithTime;
  _want_stop : bool
}.

(** [MediaSyncer(mw)] *)
Definition __init__ (mw : AnkiQt) : MediaSyncer :=
  {| mw := mw; _syncing := false; _log := []; _want_stop := false |}.

(** Field updates. *)
Definition emit (e : Effect) (self : MediaSyncer) : MediaSyncer :=
  {| mw := {| pm := pm (mw self); effects := effects (mw self) ++ [e] |};
     _syncing := _syncing self; _log := _log self;
     _want_stop := _want_stop self |}.

Definition set_sync_key (k : option string) (self : MediaSyncer)
  : MediaSyncer :=
  {| mw := {| pm := {| sync_key := k;
                       media_syncing_enabled :=
                         media_syncing_enabled (pm (mw self));
                       sync_shard := sync_shard (pm (mw self)) |};
              effects := effects (mw self) |};
     _syncing := _syncing self; _log := _log self;
     _want_stop := _want_stop self |}.

Definition set__syncing (b : bool) (self : MediaSyncer) : MediaSyncer :=
  {| mw := mw self; _syncing := b; _log := _log self;
     _want_stop := _want_stop self |}.

Definition set__want_stop (b : bool) (self : MediaSyncer) : MediaSyncer :=
  {| mw := mw self; _syncing := _syncing self; _log := _log self;
     _want_stop := b |}.

Definition append__log (e : LogEntryWithTime) (self : MediaSyncer)
  : MediaSyncer :=
  {| mw := mw self; _syncing := _syncing self; _log := _log self ++ [e];
     _want_stop := _want_stop self |}.

(** [template.format(arg)] for a template with one [{}]. *)
Fixpoint format (template arg : string) : string :=
  match template with
  | String "{" (String "}" rest) => arg ++ rest
  | String c rest => String c (format rest arg)
  | EmptyString => EmptyString
  end.

Definition newline : string := String (ascii_of_nat 10) EmptyString.

(** [str(n)] for an [int] *)
Definition str_of_int (n : Z) : string :=
  DecimalString.NilZero.string_of_int (Z.to_int n).

(** The result of a call: it returns, or it raises. *)
Inductive Outcome (A : Type) :=
| Returned (a : A)
| Raised (exc : BaseException).
Arguments Returned {A} a.
Arguments Raised {A} exc.

Section MediaSyncer.

(** [anki.lang._], the lookup in the message catalogue. *)
Variable tr : string -> string.

(** Every method that reads the clock takes [now], the value of
    [intTime()] during the call. *)

Definition _log_and_notify (now : Z) (entry : LogEntry)
    (self : MediaSyncer) : MediaSyncer :=
  let entry_with_time := {| time := now; entry := entry |} in
  emit (media_sync_did_progress entry_with_time)
       (append__log entry_with_time self).

Definition _on_rust_progress (now : Z) (self : MediaSyncer)
    (proceed : bool) (progress : Progress) : MediaSyncer * bool :=
  match kind progress with
  | ProgressKind.MediaSyncProgress =>
      let self := _log_and_notify now (val progress) self in
      if _want_stop self then (self, false) else (self, proceed)
  | _ => (self, proceed)
  end.

Definition start (now : Z) (self : MediaSyncer) : MediaSyncer :=
  if _syncing self then self
  else
    match sync_key (pm (mw self)) with
    | None => self
    | Some hkey =>
        if negb (media_syncing_enabled (pm (mw self))) then
          _log_and_notify now (entry_str (tr "Media syncing disabled."))
                          self
        else
          let self :=
            _log_and_notify now (entry_str (tr "Media sync starting..."))
                            self in
          let self := set__syncing true self in
          let self := set__want_stop false self in
          let self := emit (media_sync_did_start_or_stop true) self in
          emit (run_in_background hkey) self
    end.

Definition _endpoint (self : MediaSyncer) : string :=
  let shard_str :=
    match sync_shard (pm (mw self)) with
    | Some shard => str_of_int shard
    | None => ""
    end in
  "https://sync" ++ shard_str ++ ".ankiweb.net/msync/".

Definition _handle_sync_error (now : Z) (self : MediaSyncer)
    (exc : BaseException) : MediaSyncer * Outcome unit :=
  match exc with
  | Interrupted =>
      (_log_and_notify now (entry_str (tr "Media sync aborted.")) self,
       Returned tt)
  | _ =>
      let self :=
        _log_and_notify now (entry_str (tr "Media sync failed.")) self in
      match exc with
      | SyncError text kind =>
          match kind with
          | SyncErrorKind.AUTH_FAILED =>
              let self := set_sync_key None self in
              (emit (showWarning
                       (tr "AnkiWeb ID or password was incorrect; please try again."))
                    self,
               Returned tt)
          | SyncErrorKind.SERVER_ERROR =>
              (emit (showWarning
                       (tr "AnkiWeb encountered a problem. Please try again in a few minutes."))
                    self,
               Returned tt)
          | SyncErrorKind.MEDIA_CHECK_REQUIRED =>
              (emit (showWarning
                       (tr "Please use the Tools>Check Media menu option."))
                    self,
               Returned tt)
          | SyncErrorKind.RESYNC_REQUIRED =>
              (emit (showWarning
                       (tr "Please sync again, and post on the support forum if this message keeps appearing."))
                    self,
               Returned tt)
          | _ =>
              (emit (showWarning (format (tr "Unexpected error: {}") text))
                    self,
               Returned tt)
          end
      | NetworkError text nkind =>
          match nkind with
          | NetworkErrorKind.OFFLINE | NetworkErrorKind.TIMEOUT =>
              (emit (showWarning
                       (tr "Syncing failed; please check your internet connection."
                        ++ newline ++ newline
                        ++ format (tr "Detailed error: {}") text))
                    self,
               Returned tt)
          | _ =>
              (emit (showWarning (format (tr "Unexpected error: {}") text))
                    self,
               Returned tt)
          end
      | DBError text =>
          (emit (showWarning
                   (format (tr "Problem accessing the media database: {}")
                           text))
                self,
           Returned tt)
      | _ => (self, Raised exc)
      end
  end.

Definition _on_finished (now : Z) (self : MediaSyncer)
    (future : option BaseException) : MediaSyncer * Outcome unit :=
  let self := set__syncing false self in
  let self := emit (media_sync_did_start_or_stop false) self in
  match future with
  | Some exc => _handle_sync_error now self exc
  | None =>
      (_log_and_notify now (entry_str (tr "Media sync complete.")) self,
       Returned tt)
  end.

Definition entries (self : MediaSyncer) : list LogEntryWithTime :=
  _log self.

Definition is_syncing (self : MediaSyncer) : bool := _syncing self.

Definition abort (now : Z) (self : MediaSyncer) : MediaSyncer :=
  if negb (is_syncing self) then self
  else
    let self :=
      _log_and_notify now (entry_str (tr "Media sync aborting...")) self in
    set__want_stop true self.

Definition seconds_since_last_sync (now : Z) (self : MediaSyncer) : Z :=
  if is_syncing self then 0
  else
    let last :=
      match _log self with
      | e :: l => time (List.last l e)
      | [] => 0
      end in
    now - last.

(** *** The syncer driven by its callers

    A call is one entry into the syncer: from the GUI ([start],
    [abort]), from the backend (the progress callback), or from the
    task manager when the background task ends. *)

Inductive Call :=
| call_start
| call_abort
| call_on_rust_progress (proceed : bool) (progress : Progress)
| call_on_finished (future : option BaseException).

Inductive Reply :=
| reply_none
| reply_bool (b : bool)
| reply_raised (exc : BaseException).

Definition step (now : Z) (c : Call) (self : MediaSyncer)
  : MediaSyncer * Reply :=
  match c with
  | call_start => (start now self, reply_none)
  | call_abort => (abort now self, reply_none)
  | call_on_rust_progress proceed progress =>
      let '(self, b) := _on_rust_progress now self proceed progress in
      (self, reply_bool b)
  | call_on_finished future =>
      match _on_finished now self future with
      | (self, Returned _) => (self, reply_none)
      | (self, Raised exc) => (self, reply_raised exc)
      end
  end.

(** Runs the calls in order, each at its own clock value, and collects
    what each call replied. *)
Fixpoint run (calls : list (Z * Call)) (self : MediaSyncer)
  : MediaSyncer * list (Call * Reply) :=
  match calls with
  | [] => (self, [])
  | (now, c) :: calls' =>
      let '(self, r) := step now c self in
      let '(self, rs) := run calls' self in
      (self, (c, r) :: rs)
  end.

(** *** Vocabulary of the specification *)

(** The background task has ended. *)
Definition is_finish (c : Call) : bool :=
  match c with
  | call_on_finished _ => true
  | _ => false
  end.

(** The calls that can reach the syncer while one sync runs. *)
Definition during_run (calls : list (Z * Call)) : Prop :=
  Forall (fun c => is_finish (snd c) = false) calls.

(** The reply to a call, when the call is a progress callback with a
    media sync event, is "do not proceed". *)
Definition told_to_stop (cr : Call * Reply) : Prop :=
  forall proceed progress,
    fst cr = call_on_rust_progress proceed progress ->
    kind progress = ProgressKind.MediaSyncProgress ->
    snd cr = reply_bool false.

End MediaSyncer.

(** The texts shown to the user, oldest first. *)
Definition warning_of (e : Effect) : option string :=
  match e with
  | showWarning text => Some text
  | _ => None
  end.

Definition warnings (self : MediaSyncer) : list string :=
  omap warning_of (effects (mw self)).

(** The keys of the background syncs launched so far. *)
Definition launch_of (e : Effect) : option string :=
  match e with
  | run_in_background hkey => Some hkey
  | _ => None
  end.

Definition launches (self : MediaSyncer) : list string :=
  omap launch_of (effects (mw self)).

(** Every class of failure the syncer names. *)
Definition classified (exc : BaseException) : bool :=
  match exc with
  | Unclassified _ => false
  | _ => true
  end.

(** *** Sample syncers, for the examples *)

Definition sample_pm (key : option string) (enabled : bool)
  : ProfileManager :=
  {| sync_key := key; media_syncing_enabled := enabled;
     sync_shard := None |}.

Definition sample_idle (key : option string) (enabled : bool)
  : MediaSyncer :=
  __init__ {| pm := sample_pm key enabled; effects := [] |}.

(** A syncer started at time 100 with key ["k"]; messages are not
    translated. *)
Definition sample_syncing : MediaSyncer :=
  start (fun s => s) 100 (sample_idle (Some "k") true).

Definition sample_progress : Progress :=
  {| kind := ProgressKind.MediaSyncProgress;
     val := entry_progress
              {| checked := 3; downloaded_files := 1;
                 downloaded_deletions := 0; uploaded_files := 2;
                 uploaded_deletions := 0 |} |}.

End MediaSync.

(** ** More of [pylib/anki/notes.py]: the tag list *)

Module NoteTags.
Import Py Notes.

(** [l.remove(x)]: drops the first item equal to [x]; [None] stands for
    the [ValueError] raised when no item is equal to [x]. *)
Fixpoint list_remove (x : str) (l : list str) : option (list str) :=
  match l with
  | [] => None
  | y :: l' =>
      if bool_decide (y = x) then Some l'
      else match list_remove x l' with
           | Some l'' => Some (y :: l'')
           | None => None
           end
  end.

Section Tags.

Context {NoteTypeField : Type}.

(** [str.lower], the case mapping of the Unicode tables of Python. *)
Variable lower : str -> str.

Definition with_tags (self : @Note NoteTypeField) (ts : list str)
  : @Note NoteTypeField :=
  {| id := id self; guid := guid self; mid := mid self; mod_ := mod_ self;
     usn := usn self; tags := ts; fields := fields self;
     _fmap := _fmap self |}.

(** The first loop of [delTag]: [rem] collects, in order, the tags that
    are equal to [tag] once both are lowered. *)
Definition delTag_rem (self : @Note NoteTypeField) (tag : str) : list str :=
  foldl (fun rem t =>
           if bool_decide (lower t = lower tag) then rem ++ [t] else rem)
        [] (tags self).

(** The second loop of [delTag]: [self.tags.remove(r)] for each [r]. *)
Fixpoint delTag_remove (rem : list str) (ts : list str)
  : option (list str) :=
  match rem with
  | [] => Some ts
  | r :: rem' =>
      match list_remove r ts with
      | Some ts' => delTag_remove rem' ts'
      | None => None
      end
  end.

Definition delTag (self : @Note NoteTypeField) (tag : str)
  : option (@Note NoteTypeField) :=
  match delTag_remove (delTag_rem self tag) (tags self) with
  | Some ts => Some (with_tags self ts)
  | None => None
  end.

Definition addTag (self : @Note NoteTypeField) (tag : str)
  : @Note NoteTypeField :=
  with_tags self (tags self ++ [tag]).

End Tags.

(** A lowering of the letters A to Z, for the examples. *)
Definition sample_lower (s : str) : str :=
  map (fun c => if ((65 <=? c) && (c <=? 90))%N then (c + 32)%N else c) s.

Definition sample_tagged (ts : list string) : @Note unit :=
  with_tags (sample_note 1 "a" "b") (map lit ts).

Definition sample_work_home : @Note unit :=
  sample_tagged ["Work"%string; "home"%string].

End NoteTags.

(** ** What the outside sees of the media syncer *)

Module MediaSyncTrace.
Import MediaSync.

(** The log entries the observers of [media_sync_did_progress] were
    handed, oldest first. *)
Definition progress_of (e : Effect) : option LogEntryWithTime :=
  match e with
  | media_sync_did_progress entry => Some entry
  | _ => None
  end.

Definition notified (self : MediaSyncer) : list LogEntryWithTime :=
  omap progress_of (effects (mw self)).

(** What the observers of [media_sync_did_start_or_stop] were told last:
    the state of the sync indicator of the toolbar. *)
Definition start_stop_of (e : Effect) : option bool :=
  match e with
  | media_sync_did_start_or_stop running => Some running
  | _ => None
  end.

Definition indicator (self : MediaSyncer) : bool :=
  match last (omap start_stop_of (effects (mw self))) with
  | Some running => running
  | None => false
  end.

(** How many of the calls are the end of a background task. *)
Definition finishes (calls : list (Z * Call)) : nat :=
  length (filter (fun c => is_finish (snd c) = true) calls).

(** One free slot while idle, none while a sync runs. *)
Definition idle_slots (self : MediaSyncer) : nat :=
  if _syncing self then 0%nat else 1%nat.

(** What one call adds to the log of [self], giving [self']: at most one
    entry, stamped with the clock of the call and handed to the
    observers. *)
Definition adds (now : Z) (self self' : MediaSyncer)
    (added : list LogEntryWithTime) : Prop :=
  entries self' = (entries self ++ added)%list
  /\ notified self' = (notified self ++ added)%list
  /\ (length added <= 1)%nat
  /\ Forall (fun e => time e = now) added.

(** [start] on [self] passes both guards and launches a sync with [hkey]. *)
Definition can_start (self : MediaSyncer) (hkey : string) : Prop :=
  _syncing self = false
  /\ sync_key (pm (mw self)) = Some hkey
  /\ media_syncing_enabled (pm (mw self)) = true.

End MediaSyncTrace.

(** * Properties *)

(** ** Subscripts *)

Module PyFacts.
Import Py.

Lemma index_first (n : nat) : index (S n) 0 = Some 0%nat.
Proof. reflexivity. Qed.

Lemma getitem_first {A} (x : A) (l : list A) : getitem (x :: l) 0 = Ok x.
Proof. reflexivity. Qed.

Lemma index_lt (len : nat) (i : Z) (j : nat) :
  index len i = Some j → (j < len)%nat.
Proof.
  unfold index. intros H.
  destruct (i <? 0); case_match; simplify_eq; lia.
Qed.

(** A subscript in range, counted from the front. *)
Lemma index_in_range (len : nat) (i : Z) :
  0 ≤ i < Z.of_nat len → index len i = Some (Z.to_nat i).
Proof.
  intros H. unfold index.
  destruct (Z.ltb_spec i 0); [lia |].
  destruct (Z.leb_spec 0 i); [| lia].
  destruct (Z.ltb_spec i (Z.of_nat len)); [reflexivity | lia].
Qed.

(** Reading back the element that was just stored. *)
Lemma getitem_setitem {A} (l : list A) (i : Z) (x : A) (j : nat) :
  index (length l) i = Some j →
  ∃ l', setitem l i x = Ok l' ∧ getitem l' i = Ok x ∧ length l' = length l.
Proof.
  intros Hi. exists (<[j:=x]> l). unfold setitem, getitem.
  rewrite length_insert, Hi.
  rewrite list_lookup_insert_eq by (eapply index_lt; eassumption).
  auto.
Qed.

End PyFacts.

(** ** Notes *)

Module NotesSpec.
Import Py PyFacts Notes.

Section Spec.

Context {NoteTypeField : Type}.
Variable fieldChecksum : str -> Z.
Variable stripHTMLMedia : str -> str.
Variable splitFields : str -> list str.
Variable note_will_flush : @Note NoteTypeField -> @Note NoteTypeField.
Variable BackendNote_fits : BackendNote -> bool.

Implicit Types (self : @Note NoteTypeField) (db : list NoteRow).
Implicit Types (val key value : str) (r : NoteRow).

Local Abbreviation dupeOrEmpty :=
  (dupeOrEmpty fieldChecksum stripHTMLMedia splitFields).
Local Abbreviation dupe_loop := (dupe_loop stripHTMLMedia splitFields).
Local Abbreviation candidate := (candidate fieldChecksum).
Local Abbreviation same_first_field :=
  (same_first_field stripHTMLMedia splitFields).
Local Abbreviation flush := (flush note_will_flush BackendNote_fits).

(** [self.id or 0] is [self.id]. *)
Lemma id_or_0 self :
  (if bool_decide (id self = 0) then 0 else id self) = id self.
Proof. case_bool_decide; congruence. Qed.

Lemma select_flds_cons db r csum id' mid' :
  select_flds (r :: db) csum id' mid'
  = if decide (row_csum r = csum ∧ row_id r ≠ id' ∧ row_mid r = mid')
    then row_flds r :: select_flds db csum id' mid'
    else select_flds db csum id' mid'.
Proof.
  unfold select_flds. rewrite filter_cons. case_decide; reflexivity.
Qed.

(** The loop answers [Duplicate] at the first selected row whose first
    field matches, and [Unique] when it has gone through all of them. *)
Lemma dupe_loop_cases self db val rest csum id' mid' :
  fields self = val :: rest →
  (∀ s, splitFields s ≠ []) →
  let Q r := (row_csum r = csum ∧ row_id r ≠ id' ∧ row_mid r = mid')
             ∧ same_first_field val r in
  (Exists Q db
   ∧ dupe_loop self (select_flds db csum id' mid') = Ok Duplicate)
  ∨ (Forall (fun r => ¬ Q r) db
     ∧ dupe_loop self (select_flds db csum id' mid') = Ok Unique).
Proof.
  intros Hf Hsplit Q. induction db as [|r db IH].
  - right. split; [constructor | reflexivity].
  - rewrite select_flds_cons. case_decide as Hsel.
    + cbn [Notes.dupe_loop].
      destruct (splitFields (row_flds r)) as [|theirs more] eqn:Hs;
        [exfalso; eapply Hsplit; eassumption |].
      rewrite Hf, !getitem_first. cbn [mbind result_bind].
      case_bool_decide as Heq.
      * left. split; [| reflexivity].
        apply Exists_cons_hd. split; [assumption |].
        unfold Notes.same_first_field. eauto.
      * destruct IH as [[Hex Hl] | [Hall Hl]].
        -- left. split; [apply Exists_cons_tl |]; assumption.
        -- right. split; [| assumption].
           constructor; [| assumption].
           intros [_ (t & m & Ht & Hst)].
           rewrite Hs in Ht. injection Ht as -> _. contradiction.
    + destruct IH as [[Hex Hl] | [Hall Hl]].
      * left. split; [apply Exists_cons_tl |]; assumption.
      * right. split; [| assumption].
        constructor; [| assumption]. intros [Hc _]. contradiction.
Qed.

(** C7.  A note whose first field is empty, or holds white space only,
    is answered [Empty] (the value [1]), whatever the stored notes are:
    the table is not consulted. *)
Theorem dupeOrEmpty_blank_first_field self db val rest :
  fields self = val :: rest →
  strip val = [] →
  dupeOrEmpty self db = Ok Empty.
Proof.
  intros Hf Hblank. unfold Notes.dupeOrEmpty.
  rewrite Hf, getitem_first. cbn [mbind result_bind].
  rewrite Hblank. reflexivity.
Qed.

(** C1.  For a note whose first field is not blank, [dupeOrEmpty]
    looks at the stored rows with the checksum of that field, the same
    note type and another id; it answers [Duplicate] (the value [2])
    exactly when one of these rows has a first field equal to the
    note's once both are stripped of HTML and media, and [Unique]
    ([False]) exactly when none has. *)
Theorem dupeOrEmpty_duplicate_or_unique self db val rest :
  fields self = val :: rest →
  strip val ≠ [] →
  (∀ s, splitFields s ≠ []) →
  (dupeOrEmpty self db = Ok Duplicate
   ↔ ∃ r, r ∈ db ∧ candidate self val r ∧ same_first_field val r)
  ∧ (dupeOrEmpty self db = Ok Unique
     ↔ ¬ ∃ r, r ∈ db ∧ candidate self val r ∧ same_first_field val r).
Proof.
  intros Hf Hval Hsplit.
  assert (Hrun : dupeOrEmpty self db
            = dupe_loop self
                (select_flds db (fieldChecksum val) (id self) (mid self))).
  { unfold Notes.dupeOrEmpty.
    rewrite Hf, getitem_first. cbn [mbind result_bind].
    destruct (strip val); [congruence |]. rewrite id_or_0. reflexivity. }
  rewrite Hrun.
  destruct (dupe_loop_cases self db val rest (fieldChecksum val)
              (id self) (mid self) Hf Hsplit) as [[Hex Hl] | [Hall Hl]];
    rewrite Hl.
  - apply Exists_exists in Hex as (r & Hr & Hc & Hs).
    assert (Hdup : ∃ r, r ∈ db ∧ candidate self val r
                        ∧ same_first_field val r)
      by (exists r; unfold Notes.candidate; auto).
    split; split.
    + intros _. exact Hdup.
    + reflexivity.
    + discriminate.
    + intros Hno. contradiction.
  - rewrite Forall_forall in Hall.
    assert (Hnone : ¬ ∃ r, r ∈ db ∧ candidate self val r
                           ∧ same_first_field val r)
      by (intros (r & Hr & Hc & Hs); apply (Hall r Hr); auto).
    split; split.
    + discriminate.
    + intros Hdup. contradiction.
    + intros _. exact Hnone.
    + reflexivity.
Qed.

(** C9.  On a note that satisfies the invariant of the data model,
    storing [value] under a name of the field map and reading that name
    back gives [value]; under a name the field map lacks, reading and
    storing both raise [KeyError] (the error [UnknownField]). *)
Theorem setitem_getitem_round_trip self key value :
  (well_formed self → is_Some (_fmap self !! key) →
   ∃ self', __setitem__ self key value = Ok self'
            ∧ __getitem__ self' key = Ok value)
  ∧ (_fmap self !! key = None →
     __getitem__ self key = Raise (KeyError key)
     ∧ __setitem__ self key value = Raise (KeyError key)).
Proof.
  split.
  - intros [Hlen Hord] [[ord f] Hk].
    assert (Hi : index (length (fields self)) ord = Some (Z.to_nat ord)).
    { apply index_in_range. rewrite Hlen. eapply Hord. eassumption. }
    destruct (getitem_setitem (fields self) ord value _ Hi)
      as (fs & Hset & Hget & _).
    exists (with_fields self fs).
    unfold __setitem__, __getitem__, _fieldOrd. cbn [_fmap with_fields fields].
    rewrite Hk. cbn [mbind result_bind fst]. rewrite Hset.
    split; [reflexivity | exact Hget].
  - intros Hk. unfold __setitem__, __getitem__, _fieldOrd.
    rewrite Hk. split; reflexivity.
Qed.

(** C10.  [flush] asserts [id != 0]: on a note that was never stored
    ([id == 0]) it raises [AssertionError] before anything else, the note
    and the backend untouched.  On any other note it runs the
    [note_will_flush] hook and builds the message: when the attributes
    fit the message it hands them to [update_note] under the id the note
    has, and when they do not it raises [ValueError] and nothing reaches
    the backend.  Whenever [flush] returns, the id was not 0 and the note
    is as the hook left it: no step of [flush] gives the note an id. *)
Theorem flush_requires_id self backend :
  (id self = 0 → flush self backend = (self, backend, Raise AssertionError))
  ∧ (id self ≠ 0 →
     BackendNote_fits (message_of (note_will_flush self)) = true →
     flush self backend
     = (note_will_flush self,
        backend ++ [update_note (message_of (note_will_flush self))],
        Ok tt)
     ∧ bn_id (message_of (note_will_flush self))
       = id (note_will_flush self))
  ∧ (id self ≠ 0 →
     BackendNote_fits (message_of (note_will_flush self)) = false →
     flush self backend = (note_will_flush self, backend, Raise ValueError))
  ∧ (∀ self' backend',
       flush self backend = (self', backend', Ok tt) →
       id self ≠ 0
       ∧ self' = note_will_flush self
       ∧ backend' = backend ++ [update_note (message_of self')]).
Proof.
  unfold Notes.flush, to_backend_note. split; [| split; [| split]].
  - intros H0. rewrite bool_decide_eq_false_2; [reflexivity | tauto].
  - intros Hid Hfits. rewrite bool_decide_eq_true_2 by assumption.
    cbn zeta. rewrite Hfits. split; reflexivity.
  - intros Hid Hfits. rewrite bool_decide_eq_true_2 by assumption.
    cbn zeta. rewrite Hfits. reflexivity.
  - intros self' backend'. case_bool_decide as Hid; [| discriminate].
    cbn zeta.
    destruct (BackendNote_fits (message_of (note_will_flush self)));
      [| discriminate].
    intros H. injection H as <- <-. auto.
Qed.

End Spec.

(** *** The theorems at concrete notes *)

Lemma sample_splitFields_from_nonempty cur s :
  sample_splitFields_from cur s ≠ [].
Proof.
  revert cur. induction s as [|c s IH]; intros cur; simpl.
  - discriminate.
  - destruct (c =? 31)%N; [discriminate | apply IH].
Qed.

Lemma sample_splitFields_nonempty s : sample_splitFields s ≠ [].
Proof. apply sample_splitFields_from_nonempty. Qed.

Lemma sample_fmap_ordinals key ord (f : unit) :
  sample_fmap !! key = Some (ord, f) → 0 ≤ ord < 2.
Proof.
  unfold sample_fmap. intros H.
  apply lookup_insert_Some in H as [[_ H] | [_ H]].
  - injection H as <- _. lia.
  - apply lookup_singleton_Some in H as [_ H]. injection H as <- _. lia.
Qed.

Lemma sample_fmap_size : size sample_fmap = 2%nat.
Proof.
  unfold sample_fmap. rewrite map_size_insert_None.
  - rewrite map_size_singleton. reflexivity.
  - apply lookup_singleton_ne. discriminate.
Qed.

Lemma sample_note_well_formed id' front back :
  well_formed (sample_note id' front back).
Proof.
  split; cbn [fields _fmap sample_note].
  - rewrite sample_fmap_size. reflexivity.
  - rewrite sample_fmap_size. apply sample_fmap_ordinals.
Qed.

(** A note with a blank first field, next to a stored note. *)
Lemma dupeOrEmpty_blank_first_field_witness :
  strip (lit "  ") = []
  ∧ dupeOrEmpty sample_fieldChecksum sample_stripHTMLMedia sample_splitFields
      (sample_note 0 "  " "back") [sample_row 1 "Hello" "World"]
    = Ok Empty.
Proof.
  split; [reflexivity |].
  apply (dupeOrEmpty_blank_first_field sample_fieldChecksum
           sample_stripHTMLMedia sample_splitFields
           (sample_note 0 "  " "back") [sample_row 1 "Hello" "World"]
           (lit "  ") [lit "back"]); reflexivity.
Defined.

(** The scenario of the specification: ["Hello"] is stored; a second note
    of the same type with the same text in other markup is a duplicate,
    and is unique once its text is ["Hello World"]. *)
Lemma dupeOrEmpty_duplicate_or_unique_witness :
  dupeOrEmpty sample_fieldChecksum sample_stripHTMLMedia sample_splitFields
    (sample_note 2 "<b>Hello</b>" "x") [sample_row 1 "Hello" "World"]
  = Ok Duplicate
  ∧ dupeOrEmpty sample_fieldChecksum sample_stripHTMLMedia sample_splitFields
      (sample_note 2 "Hello World" "x") [sample_row 1 "Hello" "World"]
    = Ok Unique.
Proof.
  split.
  - apply (dupeOrEmpty_duplicate_or_unique sample_fieldChecksum
             sample_stripHTMLMedia sample_splitFields
             (sample_note 2 "<b>Hello</b>" "x") [sample_row 1 "Hello" "World"]
             (lit "<b>Hello</b>") [lit "x"]);
      [reflexivity | discriminate | apply sample_splitFields_nonempty |].
    exists (sample_row 1 "Hello" "World"). split; [left |].
    split.
    + repeat split. discriminate.
    + exists (lit "Hello"), [lit "World"]. split; reflexivity.
  - apply (dupeOrEmpty_duplicate_or_unique sample_fieldChecksum
             sample_stripHTMLMedia sample_splitFields
             (sample_note 2 "Hello World" "x") [sample_row 1 "Hello" "World"]
             (lit "Hello World") [lit "x"]);
      [reflexivity | discriminate | apply sample_splitFields_nonempty |].
    intros (r & Hr & [Hc _] & _).
    apply list_elem_of_singleton in Hr. subst r.
    vm_compute in Hc. discriminate.
Defined.

(** Storing and reading ["Back"]; reading and storing an unknown name. *)
Lemma setitem_getitem_round_trip_witness :
  (∃ self', __setitem__ (sample_note 1 "a" "b") (lit "Back") (lit "new")
            = Ok self'
            ∧ __getitem__ self' (lit "Back") = Ok (lit "new"))
  ∧ __getitem__ (sample_note 1 "a" "b") (lit "Side")
    = Raise (KeyError (lit "Side"))
  ∧ __setitem__ (sample_note 1 "a" "b") (lit "Side") (lit "new")
    = Raise (KeyError (lit "Side")).
Proof.
  split.
  - apply (setitem_getitem_round_trip (sample_note 1 "a" "b")
             (lit "Back") (lit "new")).
    + apply sample_note_well_formed.
    + exists (1, tt). vm_compute. reflexivity.
  - apply (setitem_getitem_round_trip (sample_note 1 "a" "b")
             (lit "Side") (lit "new")).
    vm_compute. reflexivity.
Defined.

(** A new note is refused; a stored one is written under its id; one
    whose modification time is 2^32 is not written. *)
Lemma flush_requires_id_witness :
  flush (fun n => n) sample_BackendNote_fits (sample_note 0 "a" "b") []
  = (sample_note 0 "a" "b", [], Raise AssertionError)
  ∧ (flush (fun n => n) sample_BackendNote_fits (sample_note 7 "a" "b") []
     = (sample_note 7 "a" "b",
        [update_note (message_of (sample_note 7 "a" "b"))], Ok tt)
     ∧ bn_id (message_of (sample_note 7 "a" "b")) = 7)
  ∧ flush (fun n => n) sample_BackendNote_fits sample_late_note []
    = (sample_late_note, [], Raise ValueError).
Proof.
  split; [| split].
  - apply (flush_requires_id (fun n => n) sample_BackendNote_fits
             (sample_note 0 "a" "b") []).
    reflexivity.
  - apply (flush_requires_id (fun n => n) sample_BackendNote_fits
             (sample_note 7 "a" "b") []); [discriminate | reflexivity].
  - apply (flush_requires_id (fun n => n) sample_BackendNote_fits
             sample_late_note []); [discriminate | reflexivity].
Defined.

End NotesSpec.

(** ** The media syncer *)

Module MediaSyncSpec.
Import MediaSync.

Open Scope string_scope.
Open Scope list_scope.

Create Rewrite HintDb syncer.

Section Spec.

Variable tr : string -> string.

Implicit Types (self : MediaSyncer) (now : Z) (c : Call).

Local Abbreviation start := (start tr).
Local Abbreviation abort := (abort tr).
Local Abbreviation _handle_sync_error := (_handle_sync_error tr).
Local Abbreviation _on_finished := (_on_finished tr).
Local Abbreviation step := (step tr).
Local Abbreviation run := (run tr).

(** *** What a log entry changes, and what it leaves alone *)

Lemma log_and_notify_log now e self :
  _log (_log_and_notify now e self)
  = _log self ++ [{| time := now; entry := e |}].
Proof. reflexivity. Qed.

Lemma log_and_notify_effects now e self :
  effects (mw (_log_and_notify now e self))
  = effects (mw self)
    ++ [media_sync_did_progress {| time := now; entry := e |}].
Proof. reflexivity. Qed.

Lemma log_and_notify_syncing now e self :
  _syncing (_log_and_notify now e self) = _syncing self.
Proof. reflexivity. Qed.

Lemma log_and_notify_want_stop now e self :
  _want_stop (_log_and_notify now e self) = _want_stop self.
Proof. reflexivity. Qed.

Lemma log_and_notify_pm now e self :
  pm (mw (_log_and_notify now e self)) = pm (mw self).
Proof. reflexivity. Qed.

Lemma log_and_notify_launches now e self :
  launches (_log_and_notify now e self) = launches self.
Proof.
  unfold launches. rewrite log_and_notify_effects, omap_app.
  apply app_nil_r.
Qed.

Lemma log_and_notify_warnings now e self :
  warnings (_log_and_notify now e self) = warnings self.
Proof.
  unfold warnings. rewrite log_and_notify_effects, omap_app.
  apply app_nil_r.
Qed.

Lemma emit_showWarning_warnings text self :
  warnings (emit (showWarning text) self) = warnings self ++ [text].
Proof.
  unfold warnings. cbn [emit mw effects]. rewrite omap_app. reflexivity.
Qed.

Lemma launches_set__want_stop b self :
  launches (set__want_stop b self) = launches self.
Proof. reflexivity. Qed.

Lemma warnings_set_sync_key k self :
  warnings (set_sync_key k self) = warnings self.
Proof. reflexivity. Qed.

Hint Rewrite log_and_notify_log log_and_notify_syncing
  log_and_notify_want_stop log_and_notify_pm log_and_notify_launches
  log_and_notify_warnings emit_showWarning_warnings
  launches_set__want_stop warnings_set_sync_key : syncer.

(** *** Single calls *)

Lemma start_syncing self now :
  _syncing self = true → start now self = self.
Proof. intros H. unfold MediaSync.start. rewrite H. reflexivity. Qed.

Lemma abort_syncing self now :
  _syncing self = true →
  abort now self
  = set__want_stop true
      (_log_and_notify now (entry_str (tr "Media sync aborting...")) self).
Proof.
  intros H. unfold MediaSync.abort, is_syncing. rewrite H. reflexivity.
Qed.

(** The callback, once the flag is set. *)
Lemma on_rust_progress_stopped self now proceed progress :
  _want_stop self = true →
  kind progress = ProgressKind.MediaSyncProgress →
  snd (_on_rust_progress now self proceed progress) = false.
Proof.
  intros Hstop Hkind. unfold MediaSync._on_rust_progress.
  rewrite Hkind, log_and_notify_want_stop, Hstop. reflexivity.
Qed.

(** Between [start] and the end of the background task, no call ends
    the sync, starts another one, or clears the request to stop. *)
Lemma step_during_run self now c :
  _syncing self = true →
  is_finish c = false →
  _syncing (fst (step now c self)) = true
  ∧ launches (fst (step now c self)) = launches self
  ∧ (_want_stop self = true → _want_stop (fst (step now c self)) = true).
Proof.
  intros Hs Hc. destruct c as [| |proceed progress|future];
    cbn [MediaSync.step]; [| | | discriminate Hc].
  - rewrite start_syncing by assumption. auto.
  - rewrite abort_syncing by assumption. cbn [fst].
    split; [exact Hs |]. split; [| reflexivity].
    rewrite launches_set__want_stop. apply log_and_notify_launches.
  - unfold MediaSync._on_rust_progress.
    destruct (kind progress); [| cbn [fst]; auto].
    rewrite log_and_notify_want_stop.
    destruct (_want_stop self) eqn:Hw; cbn [fst];
      (split; [exact Hs |]);
      (split; [apply log_and_notify_launches |]);
      intros Ht; first [discriminate Ht | exact Hw].
Qed.

Lemma run_cons now c calls self :
  run ((now, c) :: calls) self
  = (fst (run calls (fst (step now c self))),
     (c, snd (step now c self))
       :: snd (run calls (fst (step now c self)))).
Proof.
  cbn [MediaSync.run]. destruct (step now c self) as [self1 r].
  cbn [fst snd]. destruct (run calls self1). reflexivity.
Qed.

Lemma run_during_run calls self :
  _syncing self = true →
  during_run calls →
  _syncing (fst (run calls self)) = true
  ∧ launches (fst (run calls self)) = launches self.
Proof.
  intros Hs Hcalls. revert self Hs.
  induction Hcalls as [|[now c] calls Hc _ IH]; intros self Hs.
  - auto.
  - rewrite run_cons. cbn [fst].
    destruct (step_during_run self now c Hs Hc) as (Hs1 & Hl1 & _).
    destruct (IH _ Hs1) as [Hs2 Hl2]. split; congruence.
Qed.

Lemma run_stopped calls self :
  _syncing self = true →
  _want_stop self = true →
  during_run calls →
  Forall told_to_stop (snd (run calls self)).
Proof.
  intros Hs Hw Hcalls. revert self Hs Hw.
  induction Hcalls as [|[now c] calls Hc _ IH]; intros self Hs Hw.
  - constructor.
  - rewrite run_cons. cbn [snd].
    destruct (step_during_run self now c Hs Hc) as (Hs1 & _ & Hw1).
    constructor; [| apply IH; auto].
    intros proceed progress Hcall Hkind. cbn [fst snd] in *. subst c.
    cbn [MediaSync.step].
    pose proof (on_rust_progress_stopped self now proceed progress
                  Hw Hkind) as Hstop.
    destruct (_on_rust_progress now self proceed progress) as [s b].
    cbn [snd] in *. congruence.
Qed.

(** A [start] that does not start either does nothing or writes the
    entry "Media syncing disabled.". *)
Lemma start_not_started_cases self now :
  sync_key (pm (mw self)) = None
  ∨ media_syncing_enabled (pm (mw self)) = false →
  start now self = self
  ∨ start now self
    = _log_and_notify now (entry_str (tr "Media syncing disabled.")) self.
Proof.
  intros H. unfold MediaSync.start.
  destruct (_syncing self); [left; reflexivity |].
  destruct (sync_key (pm (mw self))) as [hkey|] eqn:Hk;
    [| left; reflexivity].
  destruct H as [H | H]; [discriminate H |].
  rewrite H. right. reflexivity.
Qed.

(** *** The claims *)

(** C4.  While a sync is running, [start] changes nothing: the syncer
    after the call is the syncer before it, with its syncing flag, its
    request to stop and its log.  However many calls arrive before the
    background task ends, no second background sync is launched. *)
Theorem start_while_syncing_is_noop self now :
  _syncing self = true →
  start now self = self
  ∧ ∀ calls, during_run calls →
      _syncing (fst (run calls self)) = true
      ∧ launches (fst (run calls self)) = launches self.
Proof.
  intros Hs. split.
  - apply start_syncing. exact Hs.
  - intros calls Hcalls. apply run_during_run; assumption.
Qed.

(** C5.  Once [abort] was called during a sync, every progress
    callback that carries a media sync event, until the background
    task ends, is answered [False]: the backend is not told to proceed
    again, whatever it passed as [proceed] and whatever other calls
    come in between. *)
Theorem abort_stops_later_progress self now calls :
  _syncing self = true →
  during_run calls →
  Forall told_to_stop (snd (run calls (abort now self))).
Proof.
  intros Hs Hcalls. apply run_stopped; [| | exact Hcalls];
    rewrite abort_syncing by exact Hs; [exact Hs | reflexivity].
Qed.

(** C8.  [abort] on a syncer that is not syncing changes nothing.  On
    a syncer that is syncing it appends one entry, "Media sync
    aborting...", stamped with the time of the call, notifies the
    observers of that entry and sets the request to stop; the syncing
    flag stays set and nothing else is asked of the outside. *)
Theorem abort_effect self now :
  (is_syncing self = false → abort now self = self)
  ∧ (is_syncing self = true →
     let e := {| time := now;
                 entry := entry_str (tr "Media sync aborting...") |} in
     _log (abort now self) = _log self ++ [e]
     ∧ _want_stop (abort now self) = true
     ∧ _syncing (abort now self) = true
     ∧ effects (mw (abort now self))
       = effects (mw self) ++ [media_sync_did_progress e]
     ∧ pm (mw (abort now self)) = pm (mw self)).
Proof.
  unfold is_syncing. split; intros Hs.
  - unfold MediaSync.abort, is_syncing. rewrite Hs. reflexivity.
  - rewrite abort_syncing by exact Hs. cbn zeta.
    repeat split. exact Hs.
Qed.

(** C2, amended.  [seconds_since_last_sync] is 0 while a sync is
    running.  Otherwise it is the current time minus the time stamp of
    the last log entry, and with an empty log it is the current time
    itself (the last sync counts as having happened at time 0). *)
Theorem seconds_since_last_sync_value self now :
  (is_syncing self = true → seconds_since_last_sync now self = 0)
  ∧ (is_syncing self = false →
     ∀ older e, _log self = older ++ [e] →
       seconds_since_last_sync now self = now - time e)
  ∧ (is_syncing self = false → _log self = [] →
     seconds_since_last_sync now self = now).
Proof.
  unfold seconds_since_last_sync. repeat split; intros Hs.
  - rewrite Hs. reflexivity.
  - intros older e Hlog. rewrite Hs, Hlog.
    destruct older as [|e0 older]; [reflexivity |].
    cbn [app]. rewrite last_last. reflexivity.
  - intros Hlog. rewrite Hs, Hlog. apply Z.sub_0_r.
Qed.

(** C3, amended.  Called while the sync key is absent or media
    syncing is disabled, [start] leaves the syncing flag and the
    request to stop as they are and launches no background sync.
    Without a sync key it changes nothing at all: no log entry is
    written.  On an idle syncer with a sync key and media syncing
    disabled it appends one entry, "Media syncing disabled.". *)
Theorem start_not_started self now :
  ((sync_key (pm (mw self)) = None
    ∨ media_syncing_enabled (pm (mw self)) = false) →
   _syncing (start now self) = _syncing self
   ∧ _want_stop (start now self) = _want_stop self
   ∧ launches (start now self) = launches self)
  ∧ (sync_key (pm (mw self)) = None → start now self = self)
  ∧ (_syncing self = false →
     is_Some (sync_key (pm (mw self))) →
     media_syncing_enabled (pm (mw self)) = false →
     _log (start now self)
     = _log self
       ++ [{| time := now;
              entry := entry_str (tr "Media syncing disabled.") |}]).
Proof.
  split; [| split].
  - intros H.
    destruct (start_not_started_cases self now H) as [-> | ->].
    + auto.
    + repeat split. apply log_and_notify_launches.
  - intros H. unfold MediaSync.start. rewrite H.
    destruct (_syncing self); reflexivity.
  - intros Hs [hkey Hk] Hd. unfold MediaSync.start.
    rewrite Hs, Hk, Hd. reflexivity.
Qed.


End Spec.

(** *** The theorems at concrete syncers *)

(** Two more [start]s and an [abort] during the sampled sync: still one
    launch, with the key of the first [start]. *)
Lemma start_while_syncing_is_noop_witness :
  _syncing sample_syncing = true
  ∧ start (fun s => s) 105 sample_syncing = sample_syncing
  ∧ launches
      (fst (run (fun s => s)
              [(105, call_start); (106, call_abort); (107, call_start)]
              sample_syncing))
    = ["k"].
Proof.
  destruct (start_while_syncing_is_noop (fun s => s) sample_syncing 105
              eq_refl) as [Hnoop Hrun].
  split; [reflexivity |]. split; [exact Hnoop |].
  destruct (Hrun [(105, call_start); (106, call_abort); (107, call_start)])
    as [_ Hl]; [repeat constructor | exact Hl].
Defined.

(** After an [abort] at 105: two progress callbacks asking to proceed,
    with a [start] in between. *)
Lemma abort_stops_later_progress_witness :
  _syncing sample_syncing = true
  ∧ Forall told_to_stop
      (snd (run (fun s => s)
              [(106, call_on_rust_progress true sample_progress);
               (107, call_start);
               (108, call_on_rust_progress true sample_progress)]
              (abort (fun s => s) 105 sample_syncing))).
Proof.
  split; [reflexivity |].
  apply (abort_stops_later_progress (fun s => s) sample_syncing 105);
    [reflexivity | repeat constructor].
Defined.

Lemma abort_effect_witness :
  abort (fun s => s) 50 (sample_idle None true) = sample_idle None true
  ∧ _log (abort (fun s => s) 105 sample_syncing)
    = _log sample_syncing
      ++ [{| time := 105; entry := entry_str "Media sync aborting..." |}]
  ∧ _want_stop (abort (fun s => s) 105 sample_syncing) = true
  ∧ _syncing (abort (fun s => s) 105 sample_syncing) = true.
Proof.
  split.
  - apply (abort_effect (fun s => s) (sample_idle None true) 50).
    reflexivity.
  - destruct (abort_effect (fun s => s) sample_syncing 105) as [_ H].
    destruct (H eq_refl) as (Hlog & Hstop & Hsync & _).
    split; [exact Hlog |]. split; [exact Hstop | exact Hsync].
Defined.

(** During the sampled sync, ten seconds after it completed at 120, and
    on a syncer that never logged anything. *)
Lemma seconds_since_last_sync_value_witness :
  seconds_since_last_sync 130 sample_syncing = 0
  ∧ seconds_since_last_sync 130
      (fst (_on_finished (fun s => s) 120 sample_syncing None))
    = 130 - 120
  ∧ seconds_since_last_sync 130 (sample_idle None true) = 130.
Proof.
  split; [| split].
  - apply (seconds_since_last_sync_value sample_syncing 130). reflexivity.
  - apply (seconds_since_last_sync_value
             (fst (_on_finished (fun s => s) 120 sample_syncing None)) 130)
      with (older := _log sample_syncing)
           (e := {| time := 120;
                    entry := entry_str "Media sync complete." |});
      reflexivity.
  - apply (seconds_since_last_sync_value (sample_idle None true) 130);
      reflexivity.
Defined.

(** C2, as stated, fails: idle, nothing logged, and the answer is the
    clock value, not 0. *)
Lemma seconds_since_last_sync_empty_log_counterexample :
  is_syncing (sample_idle None true) = false
  ∧ _log (sample_idle None true) = []
  ∧ seconds_since_last_sync 1600000000 (sample_idle None true) ≠ 0.
Proof. repeat split. discriminate. Qed.

Lemma start_not_started_witness :
  start (fun s => s) 100 (sample_idle None true) = sample_idle None true
  ∧ _syncing (start (fun s => s) 100 (sample_idle (Some "k") false)) = false
  ∧ _log (start (fun s => s) 100 (sample_idle (Some "k") false))
    = [{| time := 100; entry := entry_str "Media syncing disabled." |}].
Proof.
  split; [| split].
  - apply (start_not_started (fun s => s) (sample_idle None true) 100).
    reflexivity.
  - apply (start_not_started (fun s => s) (sample_idle (Some "k") false)
             100).
    right. reflexivity.
  - apply (start_not_started (fun s => s) (sample_idle (Some "k") false)
             100); [reflexivity | exists "k"; reflexivity | reflexivity].
Defined.

(** C3, as stated, fails: without a sync key, [start] appends no log
    entry. *)
Lemma start_without_key_counterexample :
  sync_key (pm (mw (sample_idle None true))) = None
  ∧ ∀ e, _log (start (fun s => s) 100 (sample_idle None true))
         ≠ _log (sample_idle None true) ++ [e].
Proof. split; [reflexivity | discriminate]. Qed.


End MediaSyncSpec.


(** ** More about notes *)

Module NotesExtra.
Import Py PyFacts Notes NotesSpec.

(** *** White space *)

Lemma lstrip_nil (s : str) :
  lstrip s = [] ↔ Forall (fun c => isspace c = true) s.
Proof.
  induction s as [|c s IH]; cbn [lstrip].
  - split; [constructor | reflexivity].
  - destruct (isspace c) eqn:Hc.
    + rewrite IH. split; [constructor; assumption |].
      intros H. inversion H. assumption.
    + split; [discriminate |].
      intros H. inversion H. congruence.
Qed.

Lemma lstrip_head (s : str) c t : lstrip s = c :: t → isspace c = false.
Proof.
  induction s as [|d s IH]; cbn [lstrip]; [discriminate |].
  destruct (isspace d) eqn:Hd; [exact IH |].
  intros H. injection H as <- _. exact Hd.
Qed.

(** [s.strip()] is empty exactly when [s] holds white space only. *)
Lemma strip_nil (s : str) :
  strip s = [] ↔ Forall (fun c => isspace c = true) s.
Proof.
  unfold strip, rstrip. split.
  - intros H. apply lstrip_nil.
    destruct (lstrip s) as [|c t] eqn:Hl; [reflexivity | exfalso].
    apply (f_equal (@rev N)) in H. rewrite rev_involutive in H.
    change (rev []) with (@nil N) in H. apply lstrip_nil in H.
    apply Forall_rev in H. rewrite rev_involutive in H.
    inversion H as [|? ? Hc _]. apply lstrip_head in Hl. congruence.
  - intros H. apply lstrip_nil in H. rewrite H. reflexivity.
Qed.

Section Extra.

Context {NoteTypeField : Type}.
Variable fieldChecksum : str -> Z.
Variable stripHTMLMedia : str -> str.
Variable splitFields : str -> list str.

Implicit Types (self : @Note NoteTypeField) (db : list NoteRow).
Implicit Types (val key value : str) (r : NoteRow).

Local Abbreviation dupeOrEmpty :=
  (dupeOrEmpty fieldChecksum stripHTMLMedia splitFields).
Local Abbreviation dupe_loop := (dupe_loop stripHTMLMedia splitFields).

(** *** [dupeOrEmpty] *)

(** The loop answers [2] or [False], never [1]. *)
Lemma dupe_loop_not_empty self rows : dupe_loop self rows ≠ Ok Empty.
Proof.
  induction rows as [|flds rows IH]; cbn [Notes.dupe_loop]; [discriminate |].
  destruct (getitem (splitFields flds) 0); [| discriminate].
  destruct (getitem (fields self) 0); cbn [mbind result_bind];
    [| discriminate].
  case_bool_decide; [discriminate | exact IH].
Qed.

(** X1.  The answer is [Empty] exactly when every code point of the
    first field is white space (in particular when the field is the
    empty string). *)
Theorem dupeOrEmpty_empty_iff_whitespace self db val rest :
  fields self = val :: rest →
  (dupeOrEmpty self db = Ok Empty
   ↔ Forall (fun c => isspace c = true) val).
Proof.
  intros Hf. rewrite <- strip_nil. unfold Notes.dupeOrEmpty.
  rewrite Hf, getitem_first. cbn [mbind result_bind].
  destruct (strip val) as [|c t].
  - split; reflexivity.
  - split; [| discriminate].
    intros H. exfalso. eapply dupe_loop_not_empty. exact H.
Qed.

(** X2.  The only way [dupeOrEmpty] fails is a note without fields:
    then [self.fields[0]] raises [IndexError]; a note with a first field
    always gets an answer. *)
Theorem dupeOrEmpty_fails_only_without_fields self db :
  (∀ s, splitFields s ≠ []) →
  (fields self = [] → dupeOrEmpty self db = Raise IndexError)
  ∧ (fields self ≠ [] → ∃ answer, dupeOrEmpty self db = Ok answer).
Proof.
  intros Hsplit. split; intros Hf.
  - unfold Notes.dupeOrEmpty. rewrite Hf. reflexivity.
  - destruct (fields self) as [|val rest] eqn:Hfs; [congruence |].
    unfold Notes.dupeOrEmpty.
    rewrite Hfs, getitem_first. cbn [mbind result_bind].
    destruct (strip val); [eauto |].
    destruct (dupe_loop_cases stripHTMLMedia splitFields self db val rest
                (fieldChecksum val)
                (if bool_decide (id self = 0) then 0 else id self)
                (mid self) Hfs Hsplit) as [[_ ->] | [_ ->]]; eauto.
Qed.

Lemma select_flds_app db1 db2 csum id' mid' :
  select_flds (db1 ++ db2) csum id' mid'
  = select_flds db1 csum id' mid' ++ select_flds db2 csum id' mid'.
Proof. unfold select_flds. rewrite filter_app. apply map_app. Qed.

(** X3.  A stored row with the id of the note itself, or of another note
    type, has no say: with or without it, wherever it sits in the table,
    the answer is the same.  (A stored note is never its own
    duplicate.) *)
Theorem dupeOrEmpty_ignores_own_row self db1 db2 r :
  row_id r = id self ∨ row_mid r ≠ mid self →
  dupeOrEmpty self (db1 ++ r :: db2) = dupeOrEmpty self (db1 ++ db2).
Proof.
  intros Hr. unfold Notes.dupeOrEmpty.
  destruct (getitem (fields self) 0) as [val|]; [| reflexivity].
  cbn [mbind result_bind]. destruct (strip val); [reflexivity |].
  rewrite !select_flds_app, select_flds_cons, id_or_0.
  case_decide as Hsel; [| reflexivity].
  destruct Hsel as (_ & Hid & Hmid). destruct Hr; contradiction.
Qed.

(** X4.  The order of the rows in the table does not matter. *)
Theorem dupeOrEmpty_permutation self db db' :
  (∀ s, splitFields s ≠ []) →
  db ≡ₚ db' →
  dupeOrEmpty self db = dupeOrEmpty self db'.
Proof.
  intros Hsplit Hperm. unfold Notes.dupeOrEmpty.
  destruct (fields self) as [|val rest] eqn:Hfs; [reflexivity |].
  rewrite getitem_first. cbn [mbind result_bind].
  destruct (strip val); [reflexivity |].
  set (i := if bool_decide (id self = 0) then 0 else id self).
  destruct (dupe_loop_cases stripHTMLMedia splitFields self db val rest
              (fieldChecksum val) i (mid self) Hfs Hsplit)
    as [[Hex ->] | [Hall ->]];
  destruct (dupe_loop_cases stripHTMLMedia splitFields self db' val rest
              (fieldChecksum val) i (mid self) Hfs Hsplit)
    as [[Hex' ->] | [Hall' ->]]; try reflexivity; exfalso.
  - rewrite Hperm in Hex. apply Exists_exists in Hex as (x & Hx & HQ).
    rewrite Forall_forall in Hall'. exact (Hall' x Hx HQ).
  - rewrite <- Hperm in Hex'. apply Exists_exists in Hex' as (x & Hx & HQ).
    rewrite Forall_forall in Hall. exact (Hall x Hx HQ).
Qed.

(** *** The dict interface *)

Lemma with_fields_same self : with_fields self (fields self) = self.
Proof. destruct self. reflexivity. Qed.

(** What a successful [__setitem__] returns. *)
Lemma setitem_Ok self key value self' :
  __setitem__ self key value = Ok self' →
  ∃ ord f j,
    _fmap self !! key = Some (ord, f)
    ∧ index (length (fields self)) ord = Some j
    ∧ self' = with_fields self (<[j:=value]> (fields self)).
Proof.
  unfold __setitem__, _fieldOrd, setitem.
  destruct (_fmap self !! key) as [[ord f]|] eqn:Hk; [| discriminate].
  cbn [mbind result_bind fst].
  destruct (index (length (fields self)) ord) as [j|] eqn:Hi;
    [| discriminate].
  cbn [mbind result_bind]. intros H. injection H as <-. eauto 6.
Qed.

(** X5.  On a note that satisfies the invariant of the data model,
    storing under one name leaves the value read under every name with
    another ordinal as it was. *)
Theorem setitem_keeps_other_fields self key value self' key' ord f ord' f' :
  well_formed self →
  _fmap self !! key = Some (ord, f) →
  _fmap self !! key' = Some (ord', f') →
  ord ≠ ord' →
  __setitem__ self key value = Ok self' →
  __getitem__ self' key' = __getitem__ self key'.
Proof.
  intros [Hlen Hord] Hk Hk' Hne Hset.
  apply setitem_Ok in Hset as (o & g & j & Hk2 & Hj & ->).
  rewrite Hk in Hk2. injection Hk2 as <- <-.
  pose proof (Hord _ _ _ Hk) as Ho. pose proof (Hord _ _ _ Hk') as Ho'.
  rewrite <- Hlen in Ho, Ho'.
  rewrite index_in_range in Hj by exact Ho. injection Hj as <-.
  unfold __getitem__, _fieldOrd. cbn [_fmap with_fields fields].
  rewrite Hk'. cbn [mbind result_bind fst]. unfold getitem.
  rewrite length_insert, (index_in_range _ _ Ho').
  rewrite list_lookup_insert_ne by lia. reflexivity.
Qed.

(** X6.  A successful [__setitem__] changes the list of fields only, and
    not its length: id, guid, note type, tags and field map are those of
    the note before, and the invariant of the data model is kept. *)
Theorem setitem_changes_fields_only self key value self' :
  __setitem__ self key value = Ok self' →
  (∃ fs, self' = with_fields self fs ∧ length fs = length (fields self))
  ∧ (well_formed self → well_formed self').
Proof.
  intros Hset. apply setitem_Ok in Hset as (o & g & j & _ & _ & ->).
  split.
  - eexists. split; [reflexivity | apply length_insert].
  - unfold well_formed. cbn [_fmap with_fields fields].
    rewrite length_insert. auto.
Qed.

(** X7.  [key in note] is false exactly when reading [note[key]] raises
    [KeyError(key)], and exactly when storing under [key] does: a name of
    the field map never gives a [KeyError]. *)
Theorem contains_iff_no_KeyError self key value :
  (__contains__ self key = false
   ↔ __getitem__ self key = Raise (KeyError key))
  ∧ (__contains__ self key = false
     ↔ __setitem__ self key value = Raise (KeyError key)).
Proof.
  unfold __contains__, __getitem__, __setitem__, _fieldOrd, getitem, setitem.
  destruct (_fmap self !! key) as [[ord f]|] eqn:Hk;
    cbn [mbind result_bind fst].
  - rewrite bool_decide_eq_true_2 by eauto.
    destruct (index (length (fields self)) ord) as [j|];
      [destruct (fields self !! j) |]; cbn [mbind result_bind];
      split; split; discriminate.
  - rewrite bool_decide_eq_false_2 by (intros [x Hx]; discriminate).
    split; split; reflexivity.
Qed.

(** X8.  Storing the value that is already there changes nothing, and of
    two stores under one name the second wins. *)
Theorem setitem_write_back_and_overwrite self key v1 v2 self1 :
  (__getitem__ self key = Ok v1 → __setitem__ self key v1 = Ok self)
  ∧ (__setitem__ self key v1 = Ok self1 →
     __setitem__ self1 key v2 = __setitem__ self key v2).
Proof.
  split.
  - unfold __getitem__, __setitem__, _fieldOrd, getitem, setitem.
    destruct (_fmap self !! key) as [[ord f]|]; [| discriminate].
    cbn [mbind result_bind fst].
    destruct (index (length (fields self)) ord) as [j|]; [| discriminate].
    destruct (fields self !! j) as [x|] eqn:Hj; [| discriminate].
    intros H. injection H as ->. cbn [mbind result_bind].
    rewrite list_insert_id by exact Hj. rewrite with_fields_same.
    reflexivity.
  - intros Hset. apply setitem_Ok in Hset as (o & g & j & Hk & Hj & ->).
    unfold __setitem__, _fieldOrd, setitem. cbn [_fmap with_fields fields].
    rewrite Hk. cbn [mbind result_bind fst].
    rewrite length_insert, Hj. cbn [mbind result_bind].
    rewrite list_insert_insert_eq. reflexivity.
Qed.

(** *** Loading and writing *)

(** X9.  Whenever [to_backend_note] builds the message, loading that
    message (with the field map of the note) gives back the note as the
    [note_will_flush] hook left it; and a note that was just loaded from
    a message is turned into that very message again when no hook changes
    it. *)
Theorem backend_note_round_trip
    (note_will_flush : @Note NoteTypeField → @Note NoteTypeField)
    (BackendNote_fits : BackendNote → bool)
    self (n : BackendNote) (fieldMap : gmap (list N) (Z * NoteTypeField)) :
  (∀ self' m,
     to_backend_note note_will_flush BackendNote_fits self = (self', Ok m) →
     self' = note_will_flush self
     ∧ _load_from_backend_note m (_fmap self') = self')
  ∧ (BackendNote_fits n = true →
     to_backend_note (fun x => x) BackendNote_fits
       (_load_from_backend_note n fieldMap)
     = (_load_from_backend_note n fieldMap, Ok n)).
Proof.
  unfold to_backend_note. split.
  - intros self' m. cbn zeta.
    destruct (BackendNote_fits (message_of (note_will_flush self)));
      [| discriminate].
    intros H. injection H as <- <-. split; [reflexivity |].
    destruct (note_will_flush self). reflexivity.
  - intros Hfits. cbn zeta.
    replace (message_of (_load_from_backend_note n fieldMap)) with n
      by (destruct n; reflexivity).
    rewrite Hfits. reflexivity.
Qed.

End Extra.

(** *** Tags *)

Section Tags.
Import NoteTags.

Context {NoteTypeField : Type}.
Variable lower : str -> str.

Implicit Types (self : @Note NoteTypeField) (tag t : str).
Implicit Types (ts rem : list str).

Local Abbreviation delTag := (delTag lower).

Lemma delTag_rem_filter self tag :
  delTag_rem lower self tag
  = filter (fun t => lower t = lower tag) (tags self).
Proof.
  unfold delTag_rem.
  enough (H : ∀ ts rem,
             foldl (fun rem t =>
                      if bool_decide (lower t = lower tag) then rem ++ [t]
                      else rem) rem ts
             = rem ++ filter (fun t => lower t = lower tag) ts)
    by apply (H (tags self) []).
  induction ts as [|t ts IH]; intros rem; cbn [foldl].
  - rewrite app_nil_r. reflexivity.
  - rewrite IH, filter_cons. case_bool_decide; case_decide; try contradiction.
    + rewrite <- app_assoc. reflexivity.
    + reflexivity.
Qed.

(** [remove] takes out the first item equal to [x]. *)
Lemma list_remove_first x pre post :
  x ∉ pre → list_remove x (pre ++ x :: post) = Some (pre ++ post).
Proof.
  induction pre as [|y pre IH]; intros Hx; cbn [app list_remove].
  - rewrite bool_decide_eq_true_2; reflexivity.
  - apply not_elem_of_cons in Hx as [Hne Hx].
    rewrite bool_decide_eq_false_2 by congruence.
    rewrite IH by exact Hx. reflexivity.
Qed.

(** Removing, one by one, the tags that match leaves those that do
    not: each [remove] finds the tag it is looking for. *)
Lemma delTag_remove_filter tag ts pre :
  Forall (fun t => lower t ≠ lower tag) pre →
  delTag_remove (filter (fun t => lower t = lower tag) ts) (pre ++ ts)
  = Some (pre ++ filter (fun t => lower t ≠ lower tag) ts).
Proof.
  revert pre. induction ts as [|t ts IH]; intros pre Hpre.
  - reflexivity.
  - rewrite !filter_cons. case_decide as Ht; case_decide as Ht';
      try contradiction.
    + cbn [delTag_remove]. rewrite list_remove_first.
      * apply IH. exact Hpre.
      * intros Hin. rewrite Forall_forall in Hpre. exact (Hpre t Hin Ht).
    + replace (pre ++ t :: ts) with ((pre ++ [t]) ++ ts)
        by (rewrite <- app_assoc; reflexivity).
      rewrite IH
        by (apply Forall_app; split;
            [exact Hpre | repeat constructor; exact Ht]).
      rewrite <- app_assoc. reflexivity.
Qed.

(** X10.  [delTag] never raises: it returns the note with exactly the
    tags that differ from [tag] once both are lowered, in the order they
    had, and with nothing else changed. *)
Theorem delTag_keeps_the_other_tags self tag :
  delTag self tag
  = Some (with_tags self
            (filter (fun t => lower t ≠ lower tag) (tags self))).
Proof.
  unfold NoteTags.delTag. rewrite delTag_rem_filter.
  pose proof (delTag_remove_filter tag (tags self) []) as H.
  cbn [app] in H. rewrite H by constructor. reflexivity.
Qed.

Lemma with_tags_with_tags self ts ts' :
  with_tags (with_tags self ts) ts' = with_tags self ts'.
Proof. reflexivity. Qed.

(** X11.  A tag that was added is taken out again by [delTag] of any tag
    that equals it up to case, as if it had never been added; [delTag]
    of another tag leaves it, at the end of the list. *)
Theorem delTag_after_addTag self tag tag' :
  (lower tag = lower tag' →
   delTag (addTag self tag) tag' = delTag self tag')
  ∧ (lower tag ≠ lower tag' →
     delTag (addTag self tag) tag'
     = (fun note => addTag note tag) <$> delTag self tag').
Proof.
  assert (Hdel : ∀ note : @Note NoteTypeField,
             delTag note tag'
             = Some (with_tags note
                       (filter (fun t => lower t ≠ lower tag') (tags note)))).
  { intros note. unfold NoteTags.delTag. rewrite delTag_rem_filter.
    pose proof (delTag_remove_filter tag' (tags note) []) as H.
    cbn [app] in H. rewrite H by constructor. reflexivity. }
  rewrite !Hdel. unfold addTag.
  cbn [tags with_tags fmap option_fmap option_map].
  rewrite filter_app, filter_cons, filter_nil. split; intros H.
  - rewrite decide_False by (intros Hn; apply Hn; exact H).
    rewrite app_nil_r. reflexivity.
  - rewrite decide_True by exact H. reflexivity.
Qed.

End Tags.

(** *** The theorems at concrete notes *)

Import NoteTags.

(** A first field made of one blank and one tab. *)
Lemma dupeOrEmpty_empty_iff_whitespace_witness :
  dupeOrEmpty sample_fieldChecksum sample_stripHTMLMedia sample_splitFields
    (with_fields (sample_note 0 "" "") [[32%N; 9%N]; lit "back"])
    [sample_row 1 "Hello" "World"]
  = Ok Empty.
Proof.
  apply (dupeOrEmpty_empty_iff_whitespace sample_fieldChecksum
           sample_stripHTMLMedia sample_splitFields
           (with_fields (sample_note 0 "" "") [[32%N; 9%N]; lit "back"])
           [sample_row 1 "Hello" "World"] [32%N; 9%N] [lit "back"]).
  - reflexivity.
  - repeat constructor.
Defined.

(** A note without fields, and a note with two. *)
Lemma dupeOrEmpty_fails_only_without_fields_witness :
  dupeOrEmpty sample_fieldChecksum sample_stripHTMLMedia sample_splitFields
    (with_fields (sample_note 2 "" "") []) [sample_row 1 "Hello" "World"]
  = Raise IndexError
  ∧ ∃ answer,
      dupeOrEmpty sample_fieldChecksum sample_stripHTMLMedia
        sample_splitFields (sample_note 2 "Hello" "x")
        [sample_row 1 "Hello" "World"]
      = Ok answer.
Proof.
  split.
  - apply (dupeOrEmpty_fails_only_without_fields sample_fieldChecksum
             sample_stripHTMLMedia sample_splitFields
             (with_fields (sample_note 2 "" "") [])
             [sample_row 1 "Hello" "World"]);
      [apply sample_splitFields_nonempty | reflexivity].
  - apply (dupeOrEmpty_fails_only_without_fields sample_fieldChecksum
             sample_stripHTMLMedia sample_splitFields
             (sample_note 2 "Hello" "x") [sample_row 1 "Hello" "World"]);
      [apply sample_splitFields_nonempty | discriminate].
Defined.

(** The note stored under id 2, checked against a table that holds its
    own row. *)
Lemma dupeOrEmpty_ignores_own_row_witness :
  dupeOrEmpty sample_fieldChecksum sample_stripHTMLMedia sample_splitFields
    (sample_note 2 "Hello" "x")
    ([sample_row 1 "Bye" "y"] ++ sample_row 2 "Hello" "x" :: [])
  = dupeOrEmpty sample_fieldChecksum sample_stripHTMLMedia
      sample_splitFields (sample_note 2 "Hello" "x")
      ([sample_row 1 "Bye" "y"] ++ []).
Proof.
  apply (dupeOrEmpty_ignores_own_row sample_fieldChecksum
           sample_stripHTMLMedia sample_splitFields
           (sample_note 2 "Hello" "x") [sample_row 1 "Bye" "y"] []
           (sample_row 2 "Hello" "x")).
  left. reflexivity.
Defined.

Lemma dupeOrEmpty_permutation_witness :
  dupeOrEmpty sample_fieldChecksum sample_stripHTMLMedia sample_splitFields
    (sample_note 3 "Hello" "x")
    [sample_row 1 "Bye" "y"; sample_row 2 "<i>Hello</i>" "z"]
  = dupeOrEmpty sample_fieldChecksum sample_stripHTMLMedia
      sample_splitFields (sample_note 3 "Hello" "x")
      [sample_row 2 "<i>Hello</i>" "z"; sample_row 1 "Bye" "y"].
Proof.
  apply (dupeOrEmpty_permutation sample_fieldChecksum
           sample_stripHTMLMedia sample_splitFields
           (sample_note 3 "Hello" "x")).
  - apply sample_splitFields_nonempty.
  - apply perm_swap.
Defined.

(** Storing under ["Back"] and reading ["Front"]. *)
Lemma setitem_keeps_other_fields_witness :
  __getitem__ (with_fields (sample_note 1 "a" "b") [lit "a"; lit "new"])
    (lit "Front")
  = __getitem__ (sample_note 1 "a" "b") (lit "Front").
Proof.
  apply (setitem_keeps_other_fields (sample_note 1 "a" "b") (lit "Back")
           (lit "new")
           (with_fields (sample_note 1 "a" "b") [lit "a"; lit "new"])
           (lit "Front") 1 tt 0 tt).
  - apply sample_note_well_formed.
  - vm_compute. reflexivity.
  - vm_compute. reflexivity.
  - discriminate.
  - vm_compute. reflexivity.
Defined.

Lemma setitem_changes_fields_only_witness :
  (∃ fs, with_fields (sample_note 1 "a" "b") [lit "a"; lit "new"]
         = with_fields (sample_note 1 "a" "b") fs
         ∧ length fs = length (fields (sample_note 1 "a" "b")))
  ∧ well_formed (with_fields (sample_note 1 "a" "b") [lit "a"; lit "new"]).
Proof.
  destruct (setitem_changes_fields_only (sample_note 1 "a" "b") (lit "Back")
              (lit "new")
              (with_fields (sample_note 1 "a" "b") [lit "a"; lit "new"]))
    as [Hfs Hwf].
  - vm_compute. reflexivity.
  - split; [exact Hfs | apply Hwf, sample_note_well_formed].
Defined.

Lemma setitem_write_back_and_overwrite_witness :
  __setitem__ (sample_note 1 "a" "b") (lit "Back") (lit "b")
  = Ok (sample_note 1 "a" "b")
  ∧ __setitem__ (with_fields (sample_note 1 "a" "b") [lit "a"; lit "b"])
      (lit "Back") (lit "c")
    = __setitem__ (sample_note 1 "a" "b") (lit "Back") (lit "c").
Proof.
  split.
  - apply (setitem_write_back_and_overwrite (sample_note 1 "a" "b")
             (lit "Back") (lit "b") (lit "c") (sample_note 1 "a" "b")).
    vm_compute. reflexivity.
  - apply (setitem_write_back_and_overwrite (sample_note 1 "a" "b")
             (lit "Back") (lit "b") (lit "c")
             (with_fields (sample_note 1 "a" "b") [lit "a"; lit "b"])).
    vm_compute. reflexivity.
Defined.

(** The message of a stored note, loaded and turned into a message
    again. *)
Lemma backend_note_round_trip_witness :
  _load_from_backend_note (message_of (sample_note 7 "a" "b")) sample_fmap
  = sample_note 7 "a" "b"
  ∧ to_backend_note (fun x => x) sample_BackendNote_fits
      (_load_from_backend_note (message_of (sample_note 7 "a" "b"))
         sample_fmap)
    = (_load_from_backend_note (message_of (sample_note 7 "a" "b"))
         sample_fmap,
       Ok (message_of (sample_note 7 "a" "b"))).
Proof.
  split.
  - destruct (proj1 (backend_note_round_trip (fun x => x)
                       sample_BackendNote_fits (sample_note 7 "a" "b")
                       (message_of (sample_note 7 "a" "b")) sample_fmap)
                (sample_note 7 "a" "b")
                (message_of (sample_note 7 "a" "b"))) as [_ Hload];
      [reflexivity | exact Hload].
  - apply (backend_note_round_trip (fun x => x) sample_BackendNote_fits
             (sample_note 7 "a" "b") (message_of (sample_note 7 "a" "b"))
             sample_fmap).
    reflexivity.
Defined.

(** ["Side"] is no name of the field map, ["Back"] is one. *)
Lemma contains_iff_no_KeyError_witness :
  __getitem__ (sample_note 1 "a" "b") (lit "Side")
  = Raise (KeyError (lit "Side"))
  ∧ __contains__ (sample_note 1 "a" "b") (lit "Back") ≠ false.
Proof.
  split.
  - apply (contains_iff_no_KeyError (sample_note 1 "a" "b") (lit "Side") []).
    vm_compute. reflexivity.
  - intros H.
    apply (contains_iff_no_KeyError (sample_note 1 "a" "b") (lit "Back") [])
      in H.
    vm_compute in H. discriminate H.
Defined.

(** ["URGENT"] is added, then ["urgent"] and ["home"] are deleted. *)
Lemma delTag_after_addTag_witness :
  delTag sample_lower (addTag sample_work_home (lit "URGENT"))
    (lit "urgent")
  = delTag sample_lower sample_work_home (lit "urgent")
  ∧ delTag sample_lower
      (addTag sample_work_home (lit "URGENT")) (lit "Home")
    = (fun note => addTag note (lit "URGENT"))
        <$> delTag sample_lower sample_work_home (lit "Home").
Proof.
  split.
  - apply (delTag_after_addTag sample_lower sample_work_home
             (lit "URGENT") (lit "urgent")).
    reflexivity.
  - apply (delTag_after_addTag sample_lower sample_work_home
             (lit "URGENT") (lit "Home")).
    discriminate.
Defined.

End NotesExtra.


(** ** More about the media syncer *)

Module MediaSyncExtra.
Import MediaSync MediaSyncSpec MediaSyncTrace.

Open Scope string_scope.
Open Scope list_scope.

Section Extra.

Variable tr : string -> string.

Implicit Types (self : MediaSyncer) (now : Z) (c : Call).
Implicit Types (calls : list (Z * Call)).

Local Abbreviation start := (start tr).
Local Abbreviation abort := (abort tr).
Local Abbreviation _handle_sync_error := (_handle_sync_error tr).
Local Abbreviation _on_finished := (_on_finished tr).
Local Abbreviation step := (step tr).
Local Abbreviation run := (run tr).

(** *** One call *)

Lemma notified_emit e self :
  notified (emit e self)
  = notified self ++ match progress_of e with Some x => [x] | None => [] end.
Proof.
  unfold notified. cbn [emit mw effects]. rewrite omap_app.
  destruct e; reflexivity.
Qed.

Lemma notified_log_and_notify now entry self :
  notified (_log_and_notify now entry self)
  = notified self ++ [{| time := now; entry := entry |}].
Proof. unfold _log_and_notify. rewrite notified_emit. reflexivity. Qed.

Lemma notified_set_sync_key k self :
  notified (set_sync_key k self) = notified self.
Proof. reflexivity. Qed.

Lemma adds_nothing now self self' :
  entries self' = entries self → notified self' = notified self →
  adds now self self' [].
Proof.
  intros Hl Hn. unfold adds. rewrite Hl, Hn, !app_nil_r.
  repeat split; auto.
Qed.

Lemma adds_entry now entry self self' :
  entries self' = entries (_log_and_notify now entry self) →
  notified self' = notified (_log_and_notify now entry self) →
  adds now self self' [{| time := now; entry := entry |}].
Proof.
  intros Hl Hn. unfold adds. rewrite Hl, Hn, notified_log_and_notify.
  repeat split; auto.
Qed.

(** A call adds at most one entry to the log, stamped with the clock of
    the call, and the observers are handed every entry it adds. *)
Lemma step_adds now c self :
  ∃ added, adds now self (fst (step now c self)) added.
Proof.
  destruct c as [| |proceed progress|future]; cbn [MediaSync.step].
  - unfold MediaSync.start.
    destruct (_syncing self); [eexists; apply adds_nothing; reflexivity |].
    destruct (sync_key (pm (mw self)));
      [| eexists; apply adds_nothing; reflexivity].
    destruct (media_syncing_enabled (pm (mw self))); cbn [negb fst];
      eexists; eapply adds_entry; try reflexivity.
    rewrite !notified_emit. cbn [progress_of]. rewrite !app_nil_r.
    reflexivity.
  - unfold MediaSync.abort, is_syncing.
    destruct (_syncing self); cbn [negb fst];
      [eexists; eapply adds_entry; reflexivity
      | eexists; apply adds_nothing; reflexivity].
  - unfold _on_rust_progress.
    destruct (kind progress);
      [| eexists; apply adds_nothing; reflexivity].
    destruct (_want_stop (_log_and_notify now (val progress) self));
      eexists; eapply adds_entry; reflexivity.
  - assert (H : ∃ added,
               adds now self (fst (_on_finished now self future)) added).
    { unfold MediaSync._on_finished.
      destruct future as [[|text k|text k|text|text]|];
        cbn [MediaSync._handle_sync_error];
        try destruct k; cbn [fst];
        eexists; eapply adds_entry; try reflexivity;
        rewrite ?notified_emit, ?notified_set_sync_key,
          ?notified_log_and_notify, ?notified_emit;
        cbn [progress_of]; rewrite ?app_nil_r; reflexivity. }
    destruct (_on_finished now self future) as [self' [[]|exc]];
      exact H.
Qed.

Lemma launches_emit e self :
  launches (emit e self)
  = launches self ++ match launch_of e with Some x => [x] | None => [] end.
Proof.
  unfold launches. cbn [emit mw effects]. rewrite omap_app.
  destruct e; reflexivity.
Qed.

Lemma indicator_emit e self :
  indicator (emit e self)
  = match start_stop_of e with
    | Some running => running
    | None => indicator self
    end.
Proof.
  unfold indicator. cbn [emit mw effects]. rewrite omap_app.
  destruct e; cbn [omap list_omap start_stop_of];
    rewrite ?app_nil_r, ?last_snoc; reflexivity.
Qed.

Lemma indicator_log_and_notify now entry self :
  indicator (_log_and_notify now entry self) = indicator self.
Proof. unfold _log_and_notify. rewrite indicator_emit. reflexivity. Qed.

(** Handling the error of a finished sync touches neither the flags, nor
    the launches, nor the sync indicator. *)
Lemma handle_sync_error_frame now self exc :
  _syncing (fst (_handle_sync_error now self exc)) = _syncing self
  ∧ _want_stop (fst (_handle_sync_error now self exc)) = _want_stop self
  ∧ launches (fst (_handle_sync_error now self exc)) = launches self
  ∧ indicator (fst (_handle_sync_error now self exc)) = indicator self.
Proof.
  destruct exc as [|text k|text k|text|text];
    cbn [MediaSync._handle_sync_error]; try destruct k; cbn [fst];
    repeat split;
    rewrite ?launches_emit, ?indicator_emit; cbn [launch_of start_stop_of];
    rewrite ?app_nil_r;
    first [apply log_and_notify_launches | apply indicator_log_and_notify].
Qed.

(** The profile changes only when the credentials were rejected. *)
Lemma handle_sync_error_pm now self exc :
  (∀ text, exc ≠ SyncError text SyncErrorKind.AUTH_FAILED) →
  pm (mw (fst (_handle_sync_error now self exc))) = pm (mw self).
Proof.
  intros Hexc.
  destruct exc as [|text k|text k|text|text];
    cbn [MediaSync._handle_sync_error]; try destruct k; try reflexivity.
  exfalso. eapply Hexc. reflexivity.
Qed.

Lemma on_finished_eq now self future :
  fst (_on_finished now self future)
  = match future with
    | Some exc =>
        fst (_handle_sync_error now
               (emit (media_sync_did_start_or_stop false)
                     (set__syncing false self)) exc)
    | None =>
        _log_and_notify now (entry_str (tr "Media sync complete."))
          (emit (media_sync_did_start_or_stop false)
                (set__syncing false self))
    end.
Proof. unfold MediaSync._on_finished. destruct future; reflexivity. Qed.

Lemma step_on_finished now self future :
  fst (step now (call_on_finished future) self)
  = fst (_on_finished now self future).
Proof.
  cbn [MediaSync.step].
  destruct (_on_finished now self future) as [self' [[]|exc]]; reflexivity.
Qed.

(** The end of the background task: not syncing any more, the request
    to stop and the launches as they were, the indicator off. *)
Lemma on_finished_frame now self future :
  _syncing (fst (_on_finished now self future)) = false
  ∧ _want_stop (fst (_on_finished now self future)) = _want_stop self
  ∧ launches (fst (_on_finished now self future)) = launches self
  ∧ indicator (fst (_on_finished now self future)) = false.
Proof.
  rewrite on_finished_eq. destruct future as [exc|].
  - destruct (handle_sync_error_frame now
                (emit (media_sync_did_start_or_stop false)
                      (set__syncing false self)) exc)
      as (-> & -> & -> & ->).
    rewrite launches_emit, indicator_emit. cbn [launch_of start_stop_of].
    rewrite app_nil_r. auto.
  - rewrite log_and_notify_launches, indicator_log_and_notify,
      launches_emit, indicator_emit. cbn [launch_of start_stop_of].
    rewrite app_nil_r. auto.
Qed.

(** [start] when it starts. *)
Lemma start_can_start now self hkey :
  can_start self hkey →
  start now self
  = emit (run_in_background hkey)
      (emit (media_sync_did_start_or_stop true)
         (set__want_stop false
            (set__syncing true
               (_log_and_notify now (entry_str (tr "Media sync starting..."))
                  self)))).
Proof.
  intros (Hs & Hk & He). unfold MediaSync.start.
  rewrite Hs, Hk, He. reflexivity.
Qed.

(** [start] case by case. *)
Lemma start_cases now self :
  start now self = self
  ∨ start now self
    = _log_and_notify now (entry_str (tr "Media syncing disabled.")) self
      ∧ _syncing self = false
  ∨ ∃ hkey, can_start self hkey.
Proof.
  unfold MediaSync.start, can_start.
  destruct (_syncing self); [left; reflexivity |].
  destruct (sync_key (pm (mw self))) as [hkey|]; [| left; reflexivity].
  destruct (media_syncing_enabled (pm (mw self)));
    [right; right; eauto | right; left; auto].
Qed.

(** *** Sequences of calls *)

(** X12.  The log only grows.  Whatever calls reach the syncer, in
    whatever state, [entries()] afterwards is [entries()] before followed
    by the new entries; there is at most one new entry per call, each
    stamped with the clock of one of the calls, and the observers of
    [media_sync_did_progress] were handed exactly the new entries, in the
    order of the log. *)
Theorem run_log_append_only calls self :
  ∃ added,
    entries (fst (run calls self)) = entries self ++ added
    ∧ notified (fst (run calls self)) = notified self ++ added
    ∧ (length added ≤ length calls)%nat
    ∧ Forall (fun e => ∃ c, (time e, c) ∈ calls) added.
Proof.
  revert self. induction calls as [|[now c] calls IH]; intros self.
  - exists []. rewrite !app_nil_r. repeat split; auto.
  - rewrite run_cons. cbn [fst].
    destruct (step_adds now c self) as (a1 & Hl1 & Hn1 & Hlen1 & Ht1).
    destruct (IH (fst (step now c self))) as (a2 & Hl2 & Hn2 & Hlen2 & Ht2).
    exists (a1 ++ a2). rewrite Hl2, Hl1, Hn2, Hn1, !app_assoc.
    split; [reflexivity |]. split; [reflexivity |]. split.
    + rewrite length_app. cbn [length]. lia.
    + apply Forall_app. split.
      * eapply Forall_impl; [exact Ht1 |]. intros e He.
        exists c. rewrite He. left.
      * eapply Forall_impl; [exact Ht2 |]. intros e [c' He].
        exists c'. right. exact He.
Qed.

Lemma step_indicator now c self :
  indicator self = _syncing self →
  indicator (fst (step now c self)) = _syncing (fst (step now c self)).
Proof.
  intros H. destruct c as [| |proceed progress|future].
  - cbn [MediaSync.step fst].
    destruct (start_cases now self) as [-> | [[-> _] | [hkey Hc]]].
    + exact H.
    + rewrite indicator_log_and_notify. exact H.
    + rewrite (start_can_start now self hkey Hc), !indicator_emit.
      reflexivity.
  - cbn [MediaSync.step fst]. unfold MediaSync.abort, is_syncing.
    destruct (_syncing self) eqn:Hs; cbn [negb]; [| congruence].
    change (indicator (_log_and_notify now
                         (entry_str (tr "Media sync aborting...")) self)
            = _syncing self).
    rewrite indicator_log_and_notify. congruence.
  - cbn [MediaSync.step]. unfold _on_rust_progress.
    destruct (kind progress); [| exact H].
    destruct (_want_stop (_log_and_notify now (val progress) self));
      cbn [fst]; rewrite indicator_log_and_notify; exact H.
  - rewrite step_on_finished.
    destruct (on_finished_frame now self future) as (-> & _ & _ & ->).
    reflexivity.
Qed.

(** X13.  The sync indicator agrees with [is_syncing()]: if the last
    [media_sync_did_start_or_stop] the observers were told equals the
    syncing flag (as it does on a new syncer), then it still does after
    any sequence of calls. *)
Theorem indicator_agrees_with_is_syncing calls self :
  indicator self = is_syncing self →
  indicator (fst (run calls self)) = is_syncing (fst (run calls self)).
Proof.
  unfold is_syncing. revert self.
  induction calls as [|[now c] calls IH]; intros self H.
  - exact H.
  - rewrite run_cons. cbn [fst]. apply IH, step_indicator, H.
Qed.

Lemma step_launches now c self :
  (length (launches (fst (step now c self)))
   + idle_slots (fst (step now c self))
   ≤ length (launches self) + idle_slots self
     + (if is_finish c then 1 else 0))%nat.
Proof.
  destruct c as [| |proceed progress|future]; cbn [is_finish].
  - cbn [MediaSync.step fst].
    destruct (start_cases now self) as [-> | [[-> Hs] | [hkey Hc]]].
    + lia.
    + rewrite log_and_notify_launches. unfold idle_slots.
      rewrite log_and_notify_syncing. lia.
    + rewrite (start_can_start now self hkey Hc), !launches_emit.
      cbn [launch_of]. rewrite app_nil_r, length_app.
      destruct Hc as (Hs & _). unfold idle_slots at 2. rewrite Hs.
      change (launches (set__want_stop false (set__syncing true
                (_log_and_notify now (entry_str (tr "Media sync starting..."))
                   self))))
        with (launches (_log_and_notify now
                (entry_str (tr "Media sync starting...")) self)).
      rewrite log_and_notify_launches. unfold idle_slots.
      cbn [_syncing emit set__want_stop set__syncing length]. lia.
  - cbn [MediaSync.step fst]. unfold MediaSync.abort, is_syncing.
    destruct (_syncing self) eqn:Hs; cbn [negb]; [| lia].
    rewrite launches_set__want_stop, log_and_notify_launches.
    unfold idle_slots. cbn [_syncing set__want_stop _log_and_notify emit
                            append__log]. lia.
  - cbn [MediaSync.step]. unfold _on_rust_progress.
    destruct (kind progress); [| cbn [fst]; lia].
    destruct (_want_stop (_log_and_notify now (val progress) self));
      cbn [fst]; rewrite log_and_notify_launches; unfold idle_slots;
      rewrite log_and_notify_syncing; lia.
  - rewrite step_on_finished.
    destruct (on_finished_frame now self future) as (Hs & _ & -> & _).
    unfold idle_slots. rewrite Hs. destruct (_syncing self); lia.
Qed.

(** X14.  Single flight over whole histories: in any sequence of calls,
    from any state, the syncs launched are at most one more than the
    completions among the calls, and no more than the completions when
    the sequence begins during a sync. *)
Theorem launches_bounded_by_finishes calls self :
  (length (launches (fst (run calls self)))
   + idle_slots (fst (run calls self))
   ≤ length (launches self) + idle_slots self + finishes calls)%nat.
Proof.
  revert self. induction calls as [|[now c] calls IH]; intros self.
  - cbn. lia.
  - rewrite run_cons. cbn [fst].
    pose proof (IH (fst (step now c self))) as H1.
    pose proof (step_launches now c self) as H2.
    unfold finishes in *. rewrite filter_cons. cbn [snd].
    destruct (is_finish c); case_decide; try congruence;
      cbn [length]; lia.
Qed.

(** *** Runs, one after the other *)

(** X15.  A [start] that passes the guards (idle, a sync key, media
    syncing enabled) sets the syncing flag, launches one background sync
    with the sync key, logs "Media sync starting..." and clears the
    request to stop: whatever was requested before, the next progress
    callback hands [proceed] back unchanged. *)
Theorem start_begins_a_fresh_run self now hkey :
  can_start self hkey →
  is_syncing (start now self) = true
  ∧ launches (start now self) = launches self ++ [hkey]
  ∧ entries (start now self)
    = entries self
      ++ [{| time := now; entry := entry_str (tr "Media sync starting...") |}]
  ∧ ∀ now' proceed progress,
      snd (_on_rust_progress now' (start now self) proceed progress)
      = proceed.
Proof.
  intros Hc. rewrite (start_can_start now self hkey Hc).
  split; [reflexivity |]. split; [| split; [reflexivity |]].
  - rewrite !launches_emit. cbn [launch_of]. rewrite app_nil_r.
    rewrite launches_set__want_stop.
    change (launches (set__syncing true ?s)) with (launches s).
    rewrite log_and_notify_launches. reflexivity.
  - intros now' proceed progress. unfold _on_rust_progress.
    destruct (kind progress); reflexivity.
Qed.

(** X16.  When the sync ends because the credentials were rejected, the
    stored sync key is cleared, so the next [start] does nothing: no log
    entry, no launch, not syncing. *)
Theorem start_after_auth_failure_is_noop self now text now' :
  let self' :=
    fst (_on_finished now self
           (Some (SyncError text SyncErrorKind.AUTH_FAILED))) in
  sync_key (pm (mw self')) = None
  ∧ is_syncing self' = false
  ∧ start now' self' = self'.
Proof.
  cbn zeta. split; [reflexivity |]. split; [reflexivity |]. reflexivity.
Qed.

(** X17.  The end of the background task, whatever its outcome (also
    when the exception is raised again): the syncing flag is cleared, the
    request to stop is left as it was, nothing is launched, one entry is
    added to the log with the clock of the call, which after a sync
    without exception is "Media sync complete."; and the profile is left
    alone unless the credentials were rejected. *)
Theorem on_finished_ends_the_run self now future :
  is_syncing (fst (_on_finished now self future)) = false
  ∧ _want_stop (fst (_on_finished now self future)) = _want_stop self
  ∧ launches (fst (_on_finished now self future)) = launches self
  ∧ (∃ entry,
       entries (fst (_on_finished now self future))
       = entries self ++ [{| time := now; entry := entry |}]
       ∧ (future = None → entry = entry_str (tr "Media sync complete.")))
  ∧ ((∀ text, future ≠ Some (SyncError text SyncErrorKind.AUTH_FAILED)) →
     pm (mw (fst (_on_finished now self future))) = pm (mw self)).
Proof.
  destruct (on_finished_frame now self future) as (Hs & Hw & Hl & _).
  split; [exact Hs |]. split; [exact Hw |]. split; [exact Hl |]. split.
  - rewrite on_finished_eq. destruct future as [exc|].
    + destruct exc as [|text k|text k|text|text];
        cbn [MediaSync._handle_sync_error]; try destruct k; cbn [fst];
        eexists; (split; [reflexivity | discriminate]).
    + eexists. split; reflexivity.
  - intros Hexc. rewrite on_finished_eq. destruct future as [exc|].
    + rewrite handle_sync_error_pm; [reflexivity |].
      intros text Heq. eapply Hexc. rewrite Heq. reflexivity.
    + reflexivity.
Qed.

Lemma step_pm now c self :
  is_finish c = false → pm (mw (fst (step now c self))) = pm (mw self).
Proof.
  intros Hc. destruct c as [| |proceed progress|future];
    [| | | discriminate Hc].
  - cbn [MediaSync.step fst].
    destruct (start_cases now self) as [-> | [[-> _] | [hkey Hk]]];
      [reflexivity | reflexivity |].
    rewrite (start_can_start now self hkey Hk). reflexivity.
  - cbn [MediaSync.step fst]. unfold MediaSync.abort.
    destruct (negb (is_syncing self)); reflexivity.
  - cbn [MediaSync.step]. unfold _on_rust_progress.
    destruct (kind progress); [| reflexivity].
    destruct (_want_stop (_log_and_notify now (val progress) self));
      reflexivity.
Qed.

Lemma run_pm calls self :
  during_run calls → pm (mw (fst (run calls self))) = pm (mw self).
Proof.
  intros Hcalls. revert self.
  induction Hcalls as [|[now c] calls Hc _ IH]; intros self.
  - reflexivity.
  - rewrite run_cons. cbn [fst]. rewrite IH. apply step_pm. exact Hc.
Qed.

(** X18.  After a run the syncer can start again: if [start] passes the
    guards, then after this [start], any calls during the sync and the
    end of the background task with any outcome but rejected credentials,
    [start] passes the guards again, with the same sync key. *)
Theorem can_start_again_after_finish self now hkey calls now' future :
  can_start self hkey →
  during_run calls →
  (∀ text, future ≠ Some (SyncError text SyncErrorKind.AUTH_FAILED)) →
  can_start
    (fst (_on_finished now' (fst (run calls (start now self))) future))
    hkey.
Proof.
  intros Hc Hcalls Hfuture.
  destruct (on_finished_frame now' (fst (run calls (start now self))) future)
    as (Hs & _).
  assert (Hpm : pm (mw (fst (_on_finished now'
                               (fst (run calls (start now self))) future)))
                = pm (mw self)).
  { rewrite on_finished_eq. destruct future as [exc|].
    - rewrite handle_sync_error_pm.
      + cbn [emit mw pm set__syncing]. rewrite run_pm by exact Hcalls.
        rewrite (start_can_start now self hkey Hc). reflexivity.
      + intros text Heq. eapply Hfuture. rewrite Heq. reflexivity.
    - cbn [_log_and_notify emit mw pm set__syncing append__log].
      rewrite run_pm by exact Hcalls.
      rewrite (start_can_start now self hkey Hc). reflexivity. }
  destruct Hc as (_ & Hk & He). unfold can_start. rewrite Hpm. auto.
Qed.

(** *** The progress callback *)

Lemma on_rust_progress_passes now self proceed progress :
  proceed = false ∨ kind progress ≠ ProgressKind.MediaSyncProgress →
  snd (_on_rust_progress now self proceed progress) = proceed.
Proof.
  intros H. unfold _on_rust_progress.
  destruct (kind progress); [| reflexivity].
  destruct H as [-> | H]; [| congruence].
  destruct (_want_stop (_log_and_notify now (val progress) self));
    reflexivity.
Qed.

(** X19.  The callback never turns a stop into a go, and it stops
    nothing but a media sync: in any sequence of calls, from any state, a
    progress callback that came with [proceed] false, or with an event of
    another kind than media sync progress, is answered with the [proceed]
    it came with. *)
Theorem progress_reply_never_overrides calls self :
  Forall (fun cr => ∀ proceed progress,
            fst cr = call_on_rust_progress proceed progress →
            proceed = false
            ∨ kind progress ≠ ProgressKind.MediaSyncProgress →
            snd cr = reply_bool proceed)
         (snd (run calls self)).
Proof.
  revert self. induction calls as [|[now c] calls IH]; intros self.
  - constructor.
  - rewrite run_cons. cbn [snd]. constructor; [| apply IH].
    cbn [fst snd]. intros proceed progress -> H. cbn [MediaSync.step].
    pose proof (on_rust_progress_passes now self proceed progress H) as Hp.
    destruct (_on_rust_progress now self proceed progress) as [s b].
    cbn [snd] in *. congruence.
Qed.

(** *** The clock *)

Lemma last_elem_of {A} (l : list A) (d : A) : List.last l d ∈ d :: l.
Proof.
  destruct l as [|x l]; [left |]. right.
  induction l as [|y l IH] in x |- *; [left |].
  right. apply (IH y).
Qed.

(** No entry of the log is younger than the calls that wrote it. *)
Lemma run_entries_before calls self now :
  Forall (fun e => time e ≤ now) (entries self) →
  Forall (fun call => fst call ≤ now) calls →
  Forall (fun e => time e ≤ now) (entries (fst (run calls self))).
Proof.
  intros Hlog Hcalls. revert self Hlog.
  induction Hcalls as [|[t c] calls Ht _ IH]; intros self Hlog.
  - exact Hlog.
  - rewrite run_cons. cbn [fst]. apply IH.
    destruct (step_adds t c self) as (added & -> & _ & _ & Hadded).
    apply Forall_app. split; [exact Hlog |].
    eapply Forall_impl; [exact Hadded |].
    intros e He. cbn beta in He. cbn [fst] in Ht. lia.
Qed.

(** X20.  If the clock never runs backwards, [seconds_since_last_sync]
    is never negative: when every entry of the log and every call in
    between carries a time that is at most the time of the question (and
    that time is not before the epoch), the answer is at least 0. *)
Theorem seconds_since_last_sync_nonnegative calls self now :
  0 ≤ now →
  Forall (fun e => time e ≤ now) (entries self) →
  Forall (fun call => fst call ≤ now) calls →
  0 ≤ seconds_since_last_sync now (fst (run calls self)).
Proof.
  intros Hnow Hlog Hcalls.
  pose proof (run_entries_before calls self now Hlog Hcalls) as Hall.
  unfold entries in Hall. unfold seconds_since_last_sync.
  destruct (is_syncing (fst (run calls self))); [lia |].
  destruct (_log (fst (run calls self))) as [|e l]; [lia |].
  rewrite Forall_forall in Hall.
  pose proof (Hall _ (last_elem_of l e)). lia.
Qed.

End Extra.

(** *** The theorems at concrete syncers *)

Lemma indicator_agrees_with_is_syncing_witness :
  indicator
    (fst (run (fun s => s)
            [(100, call_start); (105, call_abort);
             (110, call_on_finished (Some Interrupted)); (120, call_start)]
            (sample_idle (Some "k") true)))
  = is_syncing
      (fst (run (fun s => s)
              [(100, call_start); (105, call_abort);
               (110, call_on_finished (Some Interrupted)); (120, call_start)]
              (sample_idle (Some "k") true))).
Proof.
  apply (indicator_agrees_with_is_syncing (fun s => s)).
  reflexivity.
Defined.

Lemma start_begins_a_fresh_run_witness :
  can_start (sample_idle (Some "k") true) "k"
  ∧ is_syncing (start (fun s => s) 100 (sample_idle (Some "k") true)) = true
  ∧ launches (start (fun s => s) 100 (sample_idle (Some "k") true)) = ["k"].
Proof.
  assert (Hc : can_start (sample_idle (Some "k") true) "k")
    by (repeat split).
  split; [exact Hc |].
  destruct (start_begins_a_fresh_run (fun s => s)
              (sample_idle (Some "k") true) 100 "k" Hc) as (Hs & Hl & _).
  split; [exact Hs | exact Hl].
Defined.

(** The sampled sync ends without exception at 120. *)
Lemma on_finished_ends_the_run_witness :
  is_syncing (fst (_on_finished (fun s => s) 120 sample_syncing None)) = false
  ∧ pm (mw (fst (_on_finished (fun s => s) 120 sample_syncing None)))
    = pm (mw sample_syncing).
Proof.
  destruct (on_finished_ends_the_run (fun s => s) sample_syncing 120 None)
    as (Hs & _ & _ & _ & Hpm).
  split; [exact Hs |]. apply Hpm. discriminate.
Defined.

(** A run with an [abort], ended by the cancellation. *)
Lemma can_start_again_after_finish_witness :
  can_start
    (fst (_on_finished (fun s => s) 110
            (fst (run (fun s => s)
                    [(105, call_abort);
                     (106, call_on_rust_progress true sample_progress)]
                    (start (fun s => s) 100 (sample_idle (Some "k") true))))
            (Some Interrupted)))
    "k".
Proof.
  apply (can_start_again_after_finish (fun s => s)
           (sample_idle (Some "k") true) 100 "k").
  - repeat split.
  - repeat constructor.
  - discriminate.
Defined.

(** A sync that started at 100 and ended at 120, asked at 130. *)
Lemma seconds_since_last_sync_nonnegative_witness :
  0 ≤ seconds_since_last_sync 130
        (fst (run (fun s => s)
                [(100, call_start); (120, call_on_finished None)]
                (sample_idle (Some "k") true))).
Proof.
  apply (seconds_since_last_sync_nonnegative (fun s => s)).
  - lia.
  - constructor.
  - repeat constructor; cbn [fst]; lia.
Defined.

End MediaSyncExtra.
